(** * ChatoCat: the Socket.IO signaling relay of the backend (server.js)

    A shallow embedding of the [io.on("connection", ...)] block of
    server.js: the eleven inbound event handlers and the
    [disconnecting] handler, over a registry of live sockets and the
    rooms each one has joined.

    What belongs to the program and what to Socket.IO:
    - the handlers ([on_setup], [on_join_chat], [on_new_message],
      [on_call_user], ..., [on_disconnecting]) are transcribed from
      server.js line by line;
    - [connect], [socket_join], [socket_emit], [io_to_emit],
      [io_room_emit], [socket_rooms] and [disconnect] stand for the
      Socket.IO calls the handlers make.  Room names that are primitives are compared by
      value; a name that is an object or an array is a JavaScript
      reference, which no later payload can repeat.  [join] and [to]
      take an array as the list of the names in it, and [to] with no
      name at all addresses every socket; an array that has become a
      room key is unfolded the same way when [io.to] is given it back.

    A delivery is a packet the server hands to one socket's transport. *)

From Stdlib Require Import ZArith.
From stdpp Require Import base gmap strings list fin_maps pretty.

Open Scope string_scope.

(** ** JavaScript values as they arrive in payloads *)

Module JS.

(** Payloads are JSON trees.  Numbers are the integer-valued ones; only
    their equality and their truthiness are ever used. *)
#[warnings="-register-all"]
Inductive value : Type :=
| VUndef
| VNull
| VBool (b : bool)
| VNum (n : Z)
| VStr (s : string)
| VArr (elems : list value)
| VObj (fields : list (string * value)).

(** Result of evaluating an expression: a value, or a thrown TypeError. *)
Inductive completion (A : Type) : Type :=
| Normal (a : A)
| TypeError.
Arguments Normal {A} a.
Arguments TypeError {A}.

(** [!!v] *)
Definition truthy (v : value) : bool :=
  match v with
  | VUndef | VNull => false
  | VBool b => b
  | VNum n => negb (n =? 0)%Z
  | VStr s => negb (String.eqb s "")
  | VArr _ | VObj _ => true
  end.

(** An object's own property; keys of one object are distinct. *)
Fixpoint own_property (k : string) (fs : list (string * value)) : value :=
  match fs with
  | [] => VUndef
  | (k', v) :: fs' => if String.eqb k k' then v else own_property k fs'
  end.

(** [v.k], for the keys server.js reads ([_id], [name], [chat], [users],
    [sender], [to], [from], [callType]): none of them is inherited from
    a built-in prototype, so on a string, number, boolean or array the
    read gives [undefined]; on [undefined] and [null] it throws. *)
Definition get (v : value) (k : string) : completion value :=
  match v with
  | VUndef | VNull => TypeError
  | VObj fs => Normal (own_property k fs)
  | VBool _ | VNum _ | VStr _ | VArr _ => Normal VUndef
  end.

(** [v?.k] *)
Definition opt_get (v : value) (k : string) : value :=
  match get v k with
  | Normal x => x
  | TypeError => VUndef
  end.

(** [a === b].  Two objects or arrays met at different places of a
    parsed payload are different references. *)
Definition strict_eq (a b : value) : bool :=
  match a, b with
  | VUndef, VUndef => true
  | VNull, VNull => true
  | VBool x, VBool y => Bool.eqb x y
  | VNum x, VNum y => (x =? y)%Z
  | VStr x, VStr y => String.eqb x y
  | _, _ => false
  end.

Definition nullish (v : value) : bool :=
  match v with
  | VUndef | VNull => true
  | _ => false
  end.

Definition has_own (k : string) (fs : list (string * value)) : bool :=
  existsb (λ p, String.eqb k p.1) fs.

(** Whether [`${v}`] yields a string.  Converting an object calls its
    [toString]; an own [toString] that came with the payload is not a
    function, the inherited [valueOf] gives the object back, and the
    conversion throws a TypeError.  An array converts its elements,
    except [undefined] and [null], and joins them. *)
Fixpoint printable (v : value) : bool :=
  match v with
  | VObj fs => negb (has_own "toString" fs)
  | VArr xs => forallb printable xs
  | _ => true
  end.

End JS.
Export JS.

(** ** Rooms, sockets and deliveries *)

(** The name of a room as the adapter's map keys it. *)
Inductive room : Type :=
| RUndef
| RNull
| RBool (b : bool)
| RNum (n : Z)
| RStr (s : string)
| RRef (id : nat).

#[global] Instance room_eq_dec : EqDecision room.
Proof. solve_decision. Defined.

(** The room a payload value names, when the value is a primitive. *)
Definition name_of (v : value) : option room :=
  match v with
  | VUndef => Some RUndef
  | VNull => Some RNull
  | VBool b => Some (RBool b)
  | VNum n => Some (RNum n)
  | VStr s => Some (RStr s)
  | VArr _ | VObj _ => None
  end.

(** One packet handed to one socket: [emit(event, ...args)]. *)
Record delivery : Type := Delivery {
  recipient : string;
  event : string;
  args : list value
}.

(** The live sockets, each with the rooms it is in ([socket.rooms], in
    the order joined), the next unused object reference, and the
    elements of each array object that is a room key. *)
Record server : Type := Server {
  sockets : gmap string (list room);
  next_ref : nat;
  arrays : gmap nat (list value)
}.

Definition no_sockets : server := Server ∅ 0 ∅.

(** The sockets in room [r].  Within one broadcast the order is the
    map's, where the adapter has the order of joining; what is meant is
    which sockets are served, and how often. *)
Definition members (st : server) (r : room) : list string :=
  (filter (λ p : string * list room, r ∈ p.2) (map_to_list (sockets st))).*1.

(** [Array.isArray(v) ? v : [v]]: the room names [join] and [to] read
    off their argument. *)
Definition room_list (v : value) : list value :=
  match v with
  | VArr xs => xs
  | _ => [v]
  end.

(** Adding to the sockets already served, each served once. *)
Definition add_new (served : list string) (s : string) : list string :=
  if decide (s ∈ served) then served else served ++ [s].

(** The sockets a broadcast to the rooms named [names] selects: with no
    name at all, every socket; otherwise the members of the rooms
    named, each socket once.  A name that is an object or an array is a
    reference that keys no room. *)
Definition selected (st : server) (names : list value) : list string :=
  match names with
  | [] => (map_to_list (sockets st)).*1
  | _ :: _ =>
      foldl add_new []
        (flat_map (λ x, match name_of x with
                        | Some r => members st r
                        | None => []
                        end) names)
  end.

(** The sockets [io.to(v)] selects. *)
Definition targets (st : server) (v : value) : list string :=
  selected st (room_list v).

(** The sockets [io.to(r)] selects for a key [r] the adapter holds: a
    key that is an array object is unfolded like any array. *)
Definition audience (st : server) (r : room) : list string :=
  match r with
  | RRef n =>
      match arrays st !! n with
      | Some elems => selected st elems
      | None => members st r
      end
  | _ => members st r
  end.

(** How many packets of [out] go to socket [s]. *)
Definition count_to (s : string) (out : list delivery) : nat :=
  length (filter (λ d, recipient d = s) out).


(** ** Handlers as computations on the registry *)

(** A handler run: how it completed, the registry afterwards, and the
    packets sent, in order.  A throw keeps what was done before it; what
    Node does with the uncaught exception is not modelled. *)
Record run (A : Type) : Type := Run {
  result : completion A;
  after : server;
  sent : list delivery
}.
Arguments Run {A} result after sent.
Arguments result {A} r.
Arguments after {A} r.
Arguments sent {A} r.

Definition handler (A : Type) : Type := server → run A.

Definition h_ret {A} (a : A) : handler A := λ st, Run (Normal a) st [].

Definition h_bind {A B} (k : A → handler B) (m : handler A) : handler B :=
  λ st,
    let r := m st in
    match result r with
    | Normal a =>
        let r' := k a (after r) in
        Run (result r') (after r') (sent r ++ sent r')
    | TypeError => Run TypeError (after r) (sent r)
    end.

#[global] Instance handler_ret : MRet handler := @h_ret.
#[global] Instance handler_bind : MBind handler := @h_bind.

Definition throw {A} : handler A := λ st, Run TypeError st [].

Definition eval {A} (c : completion A) : handler A :=
  match c with
  | Normal a => mret a
  | TypeError => throw
  end.

(** [xs.forEach(f)] on an array's elements. *)
Fixpoint for_each {A} (f : A → handler unit) (xs : list A) : handler unit :=
  match xs with
  | [] => mret tt
  | x :: xs' => f x ≫= λ _, for_each f xs'
  end.

(** [v.forEach(f)]: only an array has [forEach]; on [undefined] or
    [null] the property read throws, on anything else the call does. *)
Definition value_for_each (v : value) (f : value → handler unit) : handler unit :=
  match v with
  | VArr xs => for_each f xs
  | _ => throw
  end.

(** [console.log] of a template literal with the values [vs] spliced
    in: the splices are converted in order before anything is
    printed. *)
Definition console_log_template (vs : list value) : handler unit :=
  if forallb printable vs then mret tt else throw.

(** *** The Socket.IO calls *)

(** A new connection: the socket starts in the room named by its id. *)
Definition connect (sid : string) (st : server) : server :=
  Server (<[sid := [RStr sid]]> (sockets st)) (next_ref st) (arrays st).

(** Adding to a set that keeps insertion order. *)
Definition add_room (r : room) (rs : list room) : list room :=
  if decide (r ∈ rs) then rs else rs ++ [r].

(** Joining several rooms, in order. *)
Definition add_rooms (rooms rs : list room) : list room :=
  foldl (λ acc r, add_room r acc) rs rooms.

(** Joining the room one value names.  An object or an array gets the
    next reference; the elements of an array are kept for [io.to]. *)
Definition join_one (sid : string) (st : server) (x : value) : server :=
  match name_of x with
  | Some r => Server (alter (add_room r) sid (sockets st)) (next_ref st) (arrays st)
  | None =>
      Server (alter (add_room (RRef (next_ref st))) sid (sockets st))
             (S (next_ref st))
             match x with
             | VArr elems => <[next_ref st := elems]> (arrays st)
             | _ => arrays st
             end
  end.

(** [socket.join(v)] *)
Definition socket_join (sid : string) (v : value) : handler unit :=
  λ st, Run (Normal tt) (foldl (join_one sid) st (room_list v)) [].

(** [socket.emit(ev, ...args)] *)
Definition socket_emit (sid ev : string) (payload : list value) : handler unit :=
  λ st, Run (Normal tt) st [Delivery sid ev payload].

(** [io.to(r).emit(ev, ...args)] for a room name held by the adapter. *)
Definition io_room_emit (r : room) (ev : string) (payload : list value) : handler unit :=
  λ st, Run (Normal tt) st ((λ s, Delivery s ev payload) <$> audience st r).

(** [io.to(v).emit(ev, ...args)] for a name read from a payload. *)
Definition io_to_emit (v : value) (ev : string) (payload : list value) : handler unit :=
  λ st, Run (Normal tt) st ((λ s, Delivery s ev payload) <$> targets st v).

(** [Array.from(socket.rooms)] *)
Definition socket_rooms (sid : string) : handler (list room) :=
  λ st, Run (Normal (default [] (sockets st !! sid))) st [].

(** What Socket.IO does after the [disconnecting] listeners have run:
    the socket leaves every room and is forgotten. *)
Definition disconnect (sid : string) (st : server) : server :=
  Server (delete sid (sockets st)) (next_ref st) (arrays st).

(** *** The handlers of server.js *)

(** [socket.on("setup", (userData) => ...)] *)
Definition on_setup (sid : string) (userData : value) : handler unit :=
  if negb (truthy (opt_get userData "_id")) then mret tt
  else
    id ← eval (get userData "_id");
    socket_join sid id;;
    name ← eval (get userData "name");
    id' ← eval (get userData "_id");
    console_log_template [name; id'];;
    socket_emit sid "connected" [].

(** [socket.on("join chat", (roomId) => ...)] *)
Definition on_join_chat (sid : string) (roomId : value) : handler unit :=
  socket_join sid roomId;;
  console_log_template [roomId].

(** [socket.on("new message", (message) => ...)] *)
Definition on_new_message (message : value) : handler unit :=
  chat ← eval (get message "chat");
  if negb (truthy (opt_get chat "users")) then mret tt
  else
    users ← eval (get chat "users");
    value_for_each users (λ user,
      uid ← eval (get user "_id");
      sender ← eval (get message "sender");
      sender_id ← eval (get sender "_id");
      if strict_eq uid sender_id then mret tt
      else io_to_emit uid "message received" [message]).

(** [socket.on("call-user", (data) => ...)] *)
Definition on_call_user (data : value) : handler unit :=
  to ← eval (get data "to");
  from ← eval (get data "from");
  name ← eval (get data "name");
  callType ← eval (get data "callType");
  io_to_emit to "incoming-call"
    [VObj [("from", from); ("name", name); ("callType", callType)]].

(** The three handlers that forward [{ from: data.from }]. *)
Definition relay_from (ev : string) (data : value) : handler unit :=
  to ← eval (get data "to");
  from ← eval (get data "from");
  io_to_emit to ev [VObj [("from", from)]].

(** The four handlers that forward [data] itself. *)
Definition relay_data (ev : string) (data : value) : handler unit :=
  to ← eval (get data "to");
  io_to_emit to ev [data].

Definition on_call_accepted : value → handler unit := relay_from "call-accepted".
Definition on_prepare_call : value → handler unit := relay_from "prepare-call".
Definition on_ready_for_offer : value → handler unit := relay_from "ready-for-offer".
Definition on_webrtc_offer : value → handler unit := relay_data "webrtc-offer".
Definition on_webrtc_answer : value → handler unit := relay_data "webrtc-answer".
Definition on_webrtc_ice_candidate : value → handler unit :=
  relay_data "webrtc-ice-candidate".
Definition on_end_call : value → handler unit := relay_data "end-call".

(** [socket.on("disconnecting", () => ...)] *)
Definition on_disconnecting (sid : string) : handler unit :=
  rooms ← socket_rooms sid;
  for_each (λ room,
    if decide (room ≠ RStr sid)
    then io_room_emit room "peer-disconnected" [VObj [("socketId", VStr sid)]]
    else mret tt) rooms.

(** The events a client can send, each with its first argument. *)
Inductive inbound : Type :=
| Setup (userData : value)
| JoinChat (roomId : value)
| NewMessage (message : value)
| CallUser (data : value)
| CallAccepted (data : value)
| PrepareCall (data : value)
| ReadyForOffer (data : value)
| WebrtcOffer (data : value)
| WebrtcAnswer (data : value)
| WebrtcIceCandidate (data : value)
| EndCall (data : value).

(** The listener table of one socket. *)
Definition handle (sid : string) (ev : inbound) : handler unit :=
  match ev with
  | Setup userData => on_setup sid userData
  | JoinChat roomId => on_join_chat sid roomId
  | NewMessage message => on_new_message message
  | CallUser data => on_call_user data
  | CallAccepted data => on_call_accepted data
  | PrepareCall data => on_prepare_call data
  | ReadyForOffer data => on_ready_for_offer data
  | WebrtcOffer data => on_webrtc_offer data
  | WebrtcAnswer data => on_webrtc_answer data
  | WebrtcIceCandidate data => on_webrtc_ice_candidate data
  | EndCall data => on_end_call data
  end.

(** The eight call-signaling events. *)
Definition is_signaling (ev : inbound) : bool :=
  match ev with
  | Setup _ | JoinChat _ | NewMessage _ => false
  | _ => true
  end.

(** The first argument of an event. *)
Definition payload_of (ev : inbound) : value :=
  match ev with
  | Setup v | JoinChat v | NewMessage v | CallUser v | CallAccepted v
  | PrepareCall v | ReadyForOffer v | WebrtcOffer v | WebrtcAnswer v
  | WebrtcIceCandidate v | EndCall v => v
  end.

(** What a call-signaling handler forwards: the outbound event name and
    its argument, for a payload that reads without throwing. *)
Definition forwarded (ev : inbound) : string * value :=
  match ev with
  | CallUser data =>
      ("incoming-call",
       VObj [("from", opt_get data "from"); ("name", opt_get data "name");
             ("callType", opt_get data "callType")])
  | CallAccepted data => ("call-accepted", VObj [("from", opt_get data "from")])
  | PrepareCall data => ("prepare-call", VObj [("from", opt_get data "from")])
  | ReadyForOffer data => ("ready-for-offer", VObj [("from", opt_get data "from")])
  | WebrtcOffer data => ("webrtc-offer", data)
  | WebrtcAnswer data => ("webrtc-answer", data)
  | WebrtcIceCandidate data => ("webrtc-ice-candidate", data)
  | EndCall data => ("end-call", data)
  | Setup _ | JoinChat _ | NewMessage _ => ("", VUndef)
  end.

(** A computation that leaves the registry as it found it. *)
Definition keeps_registry {A} (m : handler A) : Prop :=
  ∀ st, after (m st) = st.

(** Socket [s] is live and in room [r]. *)
Definition in_room (st : server) (s : string) (r : room) : Prop :=
  ∃ rs, sockets st !! s = Some rs ∧ r ∈ rs.

#[global] Instance in_room_dec st s r : Decision (in_room st s r).
Proof.
  unfold in_room. destruct (sockets st !! s) as [rs|].
  - destruct (decide (r ∈ rs)) as [Hin | Hnin].
    + left. exists rs. split; [reflexivity | exact Hin].
    + right. intros [rs' [Heq Hin]]. injection Heq as <-. exact (Hnin Hin).
  - right. intros [rs' [Heq _]]. discriminate Heq.
Defined.

(** A session is bound to an identity when it is in the room the
    identity names: that is all [setup] records. *)
Definition bound (st : server) (s : string) (identity : string) : Prop :=
  in_room st s (RStr identity).

(** [message] is an envelope whose [sender._id] and [chat.users] read
    without throwing. *)
Definition is_envelope (message sender_id : value) (users : list value) : Prop :=
  ∃ chat sender,
    get message "chat" = Normal chat ∧
    get chat "users" = Normal (VArr users) ∧
    get message "sender" = Normal sender ∧
    get sender "_id" = Normal sender_id.

(** Every entry of [users] is a record, and its [_id] is a string, a
    number or another primitive (or is missing): one room name. *)
Definition listed (users : list value) : Prop :=
  Forall (λ u, nullish u = false ∧ is_Some (name_of (opt_get u "_id"))) users.

(** The user records of [users] carry these identities, in order. *)
Definition identities (users : list value) (ids : list string) : Prop :=
  Forall2 (λ u i, get u "_id" = Normal (VStr i)) users ids.

(** The packets the loop of the [new message] handler sends over
    [users] when no read throws. *)
Definition fan_out (st : server) (message sender_id : value) (users : list value)
    : list delivery :=
  flat_map (λ u,
    if strict_eq (opt_get u "_id") sender_id then []
    else (λ s, Delivery s "message received" [message]) <$> targets st (opt_get u "_id"))
    users.

(** Sessions connect, then each sends [setup] with its user record. *)
Definition connect_all (sids : list string) (st : server) : server :=
  foldl (λ acc sid, connect sid acc) st sids.

Definition setup_all (who : list (string * value)) (st : server) : server :=
  foldl (λ acc p, after (on_setup p.1 p.2 acc)) st who.

(** [{ _id: identity }] *)
Definition user (identity : string) : value := VObj [("_id", VStr identity)].

(** Four sessions: two tabs of user uA, one of uB, one of uC. *)
Definition four_sessions : server :=
  setup_all [("a1", user "uA"); ("a2", user "uA"); ("b1", user "uB"); ("c1", user "uC")]
    (connect_all ["a1"; "a2"; "b1"; "c1"] no_sockets).

(** The four sessions and a fifth, d1 of user uD, who is not in the chat. *)
Definition five_sessions : server :=
  after (handle "d1" (Setup (user "uD")) (connect "d1" four_sessions)).

(** The four sessions after a1, b1 and c1 have opened chat1. *)
Definition in_chat1 : server :=
  foldl (λ acc sid, after (handle sid (JoinChat (VStr "chat1")) acc))
        four_sessions ["a1"; "b1"; "c1"].

(** One broadcast of [peer-disconnected] for socket [sid] to room [r]. *)
Definition farewell (st : server) (sid : string) (r : room) : list delivery :=
  (λ s, Delivery s "peer-disconnected" [VObj [("socketId", VStr sid)]])
    <$> audience st r.

(** Room key [r] is an array object. *)
Definition array_key (st : server) (r : room) : Prop :=
  match r with
  | RRef n => is_Some (arrays st !! n)
  | _ => False
  end.

(** Two sessions s1 and s2, of which s1 has sent [join chat] with the
    room id [[[]]]. *)
Definition after_nested_join : server :=
  after (handle "s1" (JoinChat (VArr [VArr []])) (connect_all ["s1"; "s2"] no_sockets)).

(** The reply the client sends to [prepare-call]: [{ to: from }]. *)
Definition ready_reply : value := VObj [("to", VStr "uB")].

(** The registries the server can be in: sockets connect under fresh
    ids, send events, and disconnect. *)
Inductive reachable : server → Prop :=
| reach_start : reachable no_sockets
| reach_connect st sid :
    reachable st → sockets st !! sid = None → reachable (connect sid st)
| reach_event st sid ev :
    reachable st → is_Some (sockets st !! sid) →
    reachable (after (handle sid ev st))
| reach_close st sid :
    reachable st → is_Some (sockets st !! sid) →
    reachable (disconnect sid (after (on_disconnecting sid st))).

(** A user record whose [name] cannot be converted to a string. *)
Definition unprintable_user : value :=
  VObj [("_id", VStr "u1"); ("name", VObj [("toString", VNum 1)])].

(** A message of user uA to the chat of uA, uB and uC. *)
Definition hello : value :=
  VObj [("chat", VObj [("_id", VStr "chat1");
                       ("users", VArr [user "uA"; user "uB"; user "uC"])]);
        ("sender", user "uA");
        ("content", VStr "hi")].

(** ** What the handlers send, seen from outside *)

(** The event name a handler sends under; [join chat] sends nothing. *)
Definition outbound (ev : inbound) : option string :=
  match ev with
  | Setup _ => Some "connected"
  | JoinChat _ => None
  | NewMessage _ => Some "message received"
  | _ => Some (forwarded ev).1
  end.

(** A computation that leaves the registry alone and whose packets all
    satisfy [Q]. *)
Definition relays_within {A} (Q : server → delivery → Prop) (m : handler A) : Prop :=
  ∀ st, after (m st) = st ∧ ∀ d, d ∈ sent (m st) → Q st d.

(** ** The browser client (App.jsx): what it does with the relay

    The callbacks of [ChatsPage] and [CallModal] that send or receive
    call events, as functions of the React state they update, and two
    helpers that only compute.  What a callback emits reaches the
    server's handler as its JSON copy, which reads cannot tell from the
    original: a property that is [undefined] is a property that is
    missing.  The keys read here ([users], [name], [isGroupChat],
    [chatName]) are not inherited from a built-in prototype either. *)

Module Client.

(** The call state of [ChatsPage]. *)
Record call_state : Type := CallState {
  showCallModal : bool;
  caller : value;
  callee : value;
  callAccepted : bool;
  callType : value
}.

(** [useState] initial values. *)
Definition initial : call_state :=
  CallState false VNull VNull false (VStr "video").

(** One run of a callback over state [S]: how it completed, the state
    React ends up with, the events handed to [socket.emit]. *)
Record outcome (S : Type) : Type := Outcome {
  finished : completion unit;
  state_after : S;
  emitted : list (string * value)
}.
Arguments Outcome {S} finished state_after emitted.
Arguments finished {S} o.
Arguments state_after {S} o.
Arguments emitted {S} o.

(** [xs.find(p)] on an array's elements. *)
Fixpoint array_find (p : value → completion bool) (xs : list value) : completion value :=
  match xs with
  | [] => Normal VUndef
  | x :: xs' =>
      match p x with
      | TypeError => TypeError
      | Normal true => Normal x
      | Normal false => array_find p xs'
      end
  end.

(** [v.find(p)]: only an array has [find]. *)
Definition value_find (v : value) (p : value → completion bool) : completion value :=
  match v with
  | VArr xs => array_find p xs
  | _ => TypeError
  end.

(** [u => u._id !== user._id] *)
Definition differs_from (user u : value) : completion bool :=
  match get u "_id" with
  | TypeError => TypeError
  | Normal a =>
      match get user "_id" with
      | TypeError => TypeError
      | Normal b => Normal (negb (strict_eq a b))
      end
  end.

(** [u => u._id !== me?._id] *)
Definition differs_from_opt (me u : value) : completion bool :=
  match get u "_id" with
  | TypeError => TypeError
  | Normal a => Normal (negb (strict_eq a (opt_get me "_id")))
  end.

(** [closeCall] *)
Definition closeCall (s : call_state) : outcome call_state :=
  Outcome (Normal tt) (CallState false VNull VNull false (callType s)) [].

(** [initiateCall(type)], with [activeChat], [socket] (present or not)
    and [user] as the render that built the callback saw them. *)
Definition initiateCall (activeChat : value) (socket : bool) (user type : value)
    (s : call_state) : outcome call_state :=
  if negb (truthy activeChat) || negb socket then Outcome (Normal tt) s []
  else
    match get activeChat "users" with
    | TypeError => Outcome TypeError s []
    | Normal users =>
        match value_find users (differs_from user) with
        | TypeError => Outcome TypeError s []
        | Normal otherUser =>
            if negb (truthy otherUser) then Outcome (Normal tt) s []
            else
              let s' := CallState true (caller s) otherUser false type in
              match get otherUser "_id", get user "_id", get user "name" with
              | Normal to, Normal from, Normal name =>
                  Outcome (Normal tt) s'
                    [("call-user",
                      VObj [("to", to); ("from", from); ("name", name);
                            ("callType", type)])]
              | _, _, _ => Outcome TypeError s' []
              end
        end
    end.

(** [handleIncomingCall({ from, name, callType })] *)
Definition handleIncomingCall (payload : value) (s : call_state) : outcome call_state :=
  match get payload "from", get payload "name", get payload "callType" with
  | Normal from, Normal name, Normal type =>
      Outcome (Normal tt)
        (CallState true (VObj [("_id", from); ("name", name)]) VNull false
                   (if truthy type then type else VStr "video"))
        []
  | _, _, _ => Outcome TypeError s []
  end.

(** [handleCallAccepted({ from })] *)
Definition handleCallAccepted (payload : value) (s : call_state) : outcome call_state :=
  match get payload "from" with
  | Normal _ =>
      Outcome (Normal tt)
        (CallState (showCallModal s) (caller s) (callee s) true (callType s)) []
  | TypeError => Outcome TypeError s []
  end.

(** [handleEndCall] *)
Definition handleEndCall (s : call_state) : outcome call_state := closeCall s.

(** The [prepare-call] listener of [CallModal]:
    [({ from }) => socket.emit("ready-for-offer", { to: from })]. *)
Definition on_prepare_call (payload : value) : outcome unit :=
  match get payload "from" with
  | Normal from => Outcome (Normal tt) tt [("ready-for-offer", VObj [("to", from)])]
  | TypeError => Outcome TypeError tt []
  end.

(** [acceptCall] of [CallModal]; its state is the [incoming] flag. *)
Definition acceptCall (socket : bool) (caller user : value) (incoming : bool)
    : outcome bool :=
  if negb socket then Outcome TypeError incoming []
  else
    match get caller "_id", get user "_id" with
    | Normal to, Normal from =>
        Outcome (Normal tt) false [("call-accepted", VObj [("to", to); ("from", from)])]
    | _, _ => Outcome TypeError incoming []
    end.

(** What can happen to the call state of [ChatsPage]. *)
Inductive ui_event : Type :=
| Initiate (activeChat : value) (socket : bool) (user type : value)
| Incoming (payload : value)
| Accepted (payload : value)
| Ended
| Closed.

Definition step (s : call_state) (e : ui_event) : call_state :=
  state_after
    match e with
    | Initiate activeChat socket user type => initiateCall activeChat socket user type s
    | Incoming payload => handleIncomingCall payload s
    | Accepted payload => handleCallAccepted payload s
    | Ended => handleEndCall s
    | Closed => closeCall s
    end.

(** The modal is up exactly when a peer is recorded. *)
Definition modal_consistent (s : call_state) : Prop :=
  showCallModal s = true ↔ (nullish (caller s) = false ∨ nullish (callee s) = false).

(** [chatTitle(chat, me)] *)
Definition chatTitle (chat me : value) : completion value :=
  if negb (truthy chat) then Normal (VStr "Loading...")
  else if truthy (opt_get chat "isGroupChat") && truthy (opt_get chat "chatName")
  then Normal (opt_get chat "chatName")
  else
    let found :=
      if nullish (opt_get chat "users") then Normal VUndef
      else value_find (opt_get chat "users") (differs_from_opt me) in
    match found with
    | TypeError => TypeError
    | Normal other =>
        Normal (if truthy (opt_get other "name") then opt_get other "name"
                else VStr "Unknown User")
    end.

(** [String(n).padStart(2, "0")] *)
Definition padStart2 (s : string) : string :=
  match String.length s with
  | 0 => "00" +:+ s
  | 1 => "0" +:+ s
  | _ => s
  end.

(** [formatDuration(totalSeconds)] for a whole number of seconds below
    2^53, as the call timer counts them up from 0.  On these numbers
    the double arithmetic of [/], [Math.floor] and [%] gives the exact
    quotient and remainder, and [String] prints a whole number in
    decimal digits.  Other arguments are outside the model. *)
Definition formatDuration (totalSeconds : N) : option string :=
  if (totalSeconds <? 2 ^ 53)%N then
    Some (padStart2 (pretty (totalSeconds `div` 60)%N) +:+ ":" +:+
          padStart2 (pretty (totalSeconds `mod` 60)%N))
  else None.

(** The character of the decimal digit [d]: code 48 is the digit 0. *)
Definition digit (d : N) : Ascii.ascii := Ascii.ascii_of_N (48 + d).

End Client.

(** ** Basic facts about the registry *)

Section Registry.

Implicit Types (st : server) (r : room) (s sid : string) (rs : list room).

Lemma members_spec st r s :
  s ∈ members st r ↔ ∃ rs, sockets st !! s = Some rs ∧ r ∈ rs.
Proof.
  unfold members. rewrite list_elem_of_fmap. split.
  - intros [[s' rs] [-> [Hr Hin]%list_elem_of_filter]].
    exists rs. split; [by apply elem_of_map_to_list | done].
  - intros [rs [Hs Hr]]. exists (s, rs). split; [done |].
    apply list_elem_of_filter. split; [done | by apply elem_of_map_to_list].
Qed.

Lemma NoDup_fst_filter {A B} (P : A * B → Prop) `{!∀ x, Decision (P x)}
    (l : list (A * B)) :
  NoDup (l.*1) → NoDup ((filter P l).*1).
Proof.
  induction l as [|x l IH]; [done |].
  rewrite fmap_cons, filter_cons. intros [Hx Hl]%NoDup_cons.
  destruct (decide (P x)); [| by apply IH].
  rewrite fmap_cons. apply NoDup_cons. split; [| by apply IH].
  intros [y [Hy [_ Hin]%list_elem_of_filter]]%list_elem_of_fmap.
  apply Hx, list_elem_of_fmap. by exists y.
Qed.

Lemma members_NoDup st r : NoDup (members st r).
Proof. apply NoDup_fst_filter, NoDup_fst_map_to_list. Qed.

Lemma members_live st r s : s ∈ members st r → is_Some (sockets st !! s).
Proof. intros (rs & Hs & _)%members_spec. by exists rs. Qed.

Lemma elem_of_add_new (served : list string) s x :
  x ∈ add_new served s ↔ x ∈ served ∨ x = s.
Proof.
  unfold add_new. destruct (decide (s ∈ served)) as [Hin | Hnin].
  - split; [by left | intros [H | ->]; done].
  - by rewrite elem_of_app, list_elem_of_singleton.
Qed.

Lemma add_new_NoDup (served : list string) s : NoDup served → NoDup (add_new served s).
Proof.
  unfold add_new. intros Hnd. destruct (decide (s ∈ served)) as [Hin | Hnin]; [done |].
  apply NoDup_app. split_and!; [done | | apply NoDup_singleton].
  intros x Hx ->%list_elem_of_singleton. done.
Qed.

Lemma elem_of_foldl_add_new (l served : list string) x :
  x ∈ foldl add_new served l ↔ x ∈ served ∨ x ∈ l.
Proof.
  revert served. induction l as [|s l IH]; intros served; cbn [foldl].
  - rewrite elem_of_nil. tauto.
  - rewrite IH, elem_of_add_new, elem_of_cons. tauto.
Qed.

Lemma foldl_add_new_NoDup (l served : list string) :
  NoDup served → NoDup (foldl add_new served l).
Proof.
  revert served. induction l as [|s l IH]; intros served Hnd; [done |].
  cbn [foldl]. by apply IH, add_new_NoDup.
Qed.

(** Serving a list without repetition serves it as it is. *)
Lemma foldl_add_new_fresh (l served : list string) :
  NoDup (served ++ l)%list → foldl add_new served l = (served ++ l)%list.
Proof.
  revert served. induction l as [|s l IH]; intros served Hnd; cbn [foldl].
  - by rewrite app_nil_r.
  - assert (s ∉ served) as Hs.
    { apply NoDup_app in Hnd as (_ & Hdisj & _). intros Hin.
      apply (Hdisj s Hin). left. }
    unfold add_new at 2. rewrite decide_False by done.
    rewrite IH; rewrite <- app_assoc; done.
Qed.

Lemma selected_NoDup st (names : list value) : NoDup (selected st names).
Proof.
  destruct names as [|x names]; cbn [selected].
  - apply NoDup_fst_map_to_list.
  - apply foldl_add_new_NoDup. constructor.
Qed.

(** With a room named, the sockets selected are those of the rooms
    named. *)
Lemma elem_of_selected st (names : list value) s :
  names ≠ [] →
  s ∈ selected st names ↔
  ∃ x r, x ∈ names ∧ name_of x = Some r ∧ s ∈ members st r.
Proof.
  intros Hne. destruct names as [|x0 names]; [done |]. cbn [selected].
  rewrite elem_of_foldl_add_new, elem_of_nil, list_elem_of_In, in_flat_map.
  split.
  - intros [[] | (x & Hx%list_elem_of_In & Hs)].
    destruct (name_of x) as [r|] eqn:Hr; [| done].
    apply list_elem_of_In in Hs. by exists x, r.
  - intros (x & r & Hx & Hr & Hs). right. exists x.
    split; [by apply list_elem_of_In |]. rewrite Hr. by apply list_elem_of_In.
Qed.

Lemma selected_live st (names : list value) s :
  s ∈ selected st names → is_Some (sockets st !! s).
Proof.
  destruct names as [|x names].
  - cbn [selected]. intros [[s' rs] [-> Hin]]%list_elem_of_fmap.
    exists rs. by apply elem_of_map_to_list.
  - intros (x' & r & _ & _ & Hs)%elem_of_selected; [| done].
    by apply members_live with r.
Qed.

Lemma room_list_primitive v r : name_of v = Some r → room_list v = [v].
Proof. by destruct v. Qed.

(** One room named by a primitive: its members. *)
Lemma targets_primitive st v r : name_of v = Some r → targets st v = members st r.
Proof.
  intros Hr. unfold targets. rewrite (room_list_primitive v r Hr).
  cbn [selected flat_map]. rewrite Hr, app_nil_r.
  apply (foldl_add_new_fresh (members st r) []), members_NoDup.
Qed.

Lemma targets_NoDup st v : NoDup (targets st v).
Proof. apply selected_NoDup. Qed.

Lemma targets_live st v s : s ∈ targets st v → is_Some (sockets st !! s).
Proof. apply selected_live. Qed.

(** A key that is not an array is addressed as the room it keys. *)
Lemma audience_plain st r : ¬ array_key st r → audience st r = members st r.
Proof.
  destruct r as [| | | | |n]; try done. cbn [array_key audience].
  destruct (arrays st !! n); [| done]. intros []. by eexists.
Qed.

Lemma audience_NoDup st r : NoDup (audience st r).
Proof.
  destruct r as [| | | | |n]; cbn [audience]; try apply members_NoDup.
  destruct (arrays st !! n); [apply selected_NoDup | apply members_NoDup].
Qed.

Lemma audience_live st r s : s ∈ audience st r → is_Some (sockets st !! s).
Proof.
  destruct r as [| | | | |n]; cbn [audience]; try apply members_live.
  destruct (arrays st !! n); [apply selected_live | apply members_live].
Qed.

Lemma in_room_members st s r : in_room st s r ↔ s ∈ members st r.
Proof. unfold in_room. by rewrite members_spec. Qed.

Lemma bound_members st s identity :
  bound st s identity ↔ s ∈ members st (RStr identity).
Proof. apply in_room_members. Qed.

Lemma targets_bound st i s : s ∈ targets st (VStr i) ↔ bound st s i.
Proof.
  rewrite (targets_primitive st (VStr i) (RStr i)) by done.
  symmetry. apply bound_members.
Qed.

(** A list without repetition whose only possible element is [x]. *)
Lemma NoDup_only {A} (l : list A) (x : A) :
  NoDup l → x ∈ l → (∀ y, y ∈ l → y = x) → l = [x].
Proof.
  intros Hnd Hx Hall. destruct l as [|a l]; [by apply elem_of_nil in Hx |].
  assert (a = x) as -> by (apply Hall; left).
  f_equal. destruct l as [|b l]; [done |].
  assert (b = x) as -> by (apply Hall; right; left).
  apply NoDup_cons in Hnd as [Hnot _]. exfalso. apply Hnot. left.
Qed.

Lemma NoDup_none {A} (l : list A) : (∀ y, y ∉ l) → l = [].
Proof.
  destruct l as [|a l]; [done |]. intros H. exfalso. apply (H a). left.
Qed.

(** Counting the packets of one broadcast. *)
Lemma count_to_app s (out1 out2 : list delivery) :
  count_to s (out1 ++ out2) = count_to s out1 + count_to s out2.
Proof. unfold count_to. by rewrite filter_app, length_app. Qed.

Lemma count_to_broadcast s ev (payload : list value) (l : list string) :
  NoDup l →
  count_to s ((λ x, Delivery x ev payload) <$> l) = if decide (s ∈ l) then 1 else 0.
Proof.
  unfold count_to. induction 1 as [|x l Hx Hnd IH]; [done |].
  rewrite fmap_cons, filter_cons. cbn [recipient].
  destruct (decide (x = s)) as [-> | Hne].
  - cbn [length]. rewrite IH.
    rewrite (decide_True (P := s ∈ s :: l)) by left.
    by rewrite decide_False.
  - rewrite IH. destruct (decide (s ∈ l)) as [Hin | Hnin].
    + rewrite decide_True; [done | by right].
    + rewrite decide_False; [done |].
      intros [Heq | Hin]%elem_of_cons; [by subst | done].
Qed.

End Registry.

(** ** Running the handlers *)

Ltac run_handler :=
  unfold eval, throw, socket_emit, io_to_emit, io_room_emit, socket_rooms;
  unfold mbind, mret, handler_bind, handler_ret, h_bind, h_ret;
  cbn [result after sent app].

Lemma run_eta {T} (r : run T) : Run (result r) (after r) (sent r) = r.
Proof. by destruct r. Qed.

Section Monad.

Context {A B : Type}.

Lemma bind_eval_Normal (a : A) (k : A → handler B) st :
  (eval (Normal a) ≫= k) st = k a st.
Proof. run_handler. apply run_eta. Qed.

Lemma bind_run (m : handler A) (k : A → handler B) st a st' out :
  m st = Run (Normal a) st' out →
  (m ≫= k) st = Run (result (k a st')) (after (k a st')) (out ++ sent (k a st')).
Proof. intros H. run_handler. by rewrite H. Qed.

End Monad.

Section Setup.

Implicit Types (st : server) (r : room) (s sid : string) (rs : list room).

Lemma get_non_nullish v k : nullish v = false → get v k = Normal (opt_get v k).
Proof. unfold opt_get. by destruct v. Qed.

Lemma get_Normal_non_nullish v k x : get v k = Normal x → nullish v = false.
Proof. by destruct v. Qed.

Lemma get_Normal_opt_get v k x : get v k = Normal x → opt_get v k = x.
Proof. unfold opt_get. by intros ->. Qed.

Lemma truthy_opt_get v k :
  truthy (opt_get v k) = true → get v k = Normal (opt_get v k).
Proof. unfold opt_get. destruct (get v k); [done | discriminate]. Qed.

Lemma elem_of_add_room r r' rs : r' ∈ add_room r rs ↔ r' = r ∨ r' ∈ rs.
Proof.
  unfold add_room. destruct (decide (r ∈ rs)) as [Hin | Hnin].
  - split; [by right | intros [-> | H]; done].
  - rewrite elem_of_app, list_elem_of_singleton. tauto.
Qed.

Lemma add_room_NoDup r rs : NoDup rs → NoDup (add_room r rs).
Proof.
  unfold add_room. intros Hnd. destruct (decide (r ∈ rs)) as [Hin | Hnin]; [done |].
  apply NoDup_app. split_and!; [done | | apply NoDup_singleton].
  intros x Hx ->%list_elem_of_singleton. done.
Qed.

Lemma elem_of_add_rooms (rooms : list room) r' rs :
  r' ∈ add_rooms rooms rs ↔ r' ∈ rooms ∨ r' ∈ rs.
Proof.
  unfold add_rooms. revert rs. induction rooms as [|r rooms IH]; intros rs; cbn [foldl].
  - rewrite elem_of_nil. tauto.
  - rewrite IH, elem_of_add_room, elem_of_cons. tauto.
Qed.

Lemma add_rooms_NoDup (rooms : list room) rs : NoDup rs → NoDup (add_rooms rooms rs).
Proof.
  unfold add_rooms. revert rs. induction rooms as [|r rooms IH]; intros rs Hnd; [done |].
  cbn [foldl]. by apply IH, add_room_NoDup.
Qed.

Lemma join_one_sockets sid st x :
  ∃ r, sockets (join_one sid st x) = alter (add_room r) sid (sockets st).
Proof. unfold join_one. destruct (name_of x) as [r|]; by eexists. Qed.

(** What [socket.join] leaves in the registry: the rooms of the joining
    socket grow by the rooms named, and nobody else's change. *)
Lemma socket_join_sockets sid v st :
  ∃ rooms, sockets (after (socket_join sid v st)) = alter (add_rooms rooms) sid (sockets st).
Proof.
  unfold socket_join. cbn [after]. generalize (room_list v). intros names. revert st.
  induction names as [|x names IH]; intros st; cbn [foldl].
  - exists []. apply map_eq. intros s. destruct (decide (sid = s)) as [-> | Hne].
    + rewrite lookup_alter_eq. by destruct (sockets st !! s).
    + by rewrite lookup_alter_ne.
  - destruct (IH (join_one sid st x)) as [rooms ->].
    destruct (join_one_sockets sid st x) as [r ->].
    exists (r :: rooms). by rewrite alter_alter_eq.
Qed.

(** Joining one room named by a primitive. *)
Lemma socket_join_primitive sid v r st :
  name_of v = Some r →
  socket_join sid v st =
    Run (Normal tt) (Server (alter (add_room r) sid (sockets st)) (next_ref st) (arrays st)) [].
Proof.
  intros Hr. unfold socket_join. rewrite (room_list_primitive v r Hr).
  cbn [foldl]. unfold join_one. by rewrite Hr.
Qed.

Lemma socket_join_run sid v st :
  result (socket_join sid v st) = Normal tt ∧ sent (socket_join sid v st) = [].
Proof. done. Qed.

Lemma socket_join_keeps sid v st s r :
  in_room st s r → in_room (after (socket_join sid v st)) s r.
Proof.
  unfold in_room. intros [rs [Hs Hr]].
  destruct (socket_join_sockets sid v st) as [rooms ->].
  destruct (decide (sid = s)) as [-> | Hne].
  - exists (add_rooms rooms rs). rewrite lookup_alter_eq, Hs. split; [done |].
    apply elem_of_add_rooms. by right.
  - exists rs. by rewrite lookup_alter_ne.
Qed.

Lemma socket_join_joins sid v st r :
  name_of v = Some r → is_Some (sockets st !! sid) →
  in_room (after (socket_join sid v st)) sid r.
Proof.
  unfold in_room. intros Hv [rs Hs].
  rewrite (socket_join_primitive sid v r st Hv). cbn [after sockets].
  exists (add_room r rs).
  rewrite lookup_alter_eq, Hs. split; [done |]. apply elem_of_add_room. by left.
Qed.

Lemma socket_join_other sid v st s :
  s ≠ sid → sockets (after (socket_join sid v st)) !! s = sockets st !! s.
Proof.
  intros Hne. destruct (socket_join_sockets sid v st) as [rooms ->].
  by rewrite lookup_alter_ne.
Qed.

Lemma on_setup_falsy sid userData st :
  truthy (opt_get userData "_id") = false →
  on_setup sid userData st = Run (Normal tt) st [].
Proof. unfold on_setup. by intros ->. Qed.

(** With a usable [_id] the handler joins first; whether the log line
    that follows converts [name] and [_id] decides the rest. *)
Lemma on_setup_truthy sid userData st :
  truthy (opt_get userData "_id") = true →
  on_setup sid userData st =
    if printable (opt_get userData "name") && printable (opt_get userData "_id")
    then Run (Normal tt)
             (after (socket_join sid (opt_get userData "_id") st))
             [Delivery sid "connected" []]
    else Run TypeError (after (socket_join sid (opt_get userData "_id") st)) [].
Proof.
  intros Ht. unfold on_setup. rewrite Ht. cbn [negb].
  pose proof (truthy_opt_get _ _ Ht) as Hid.
  pose proof (get_Normal_non_nullish _ _ _ Hid) as Hn.
  rewrite Hid, bind_eval_Normal.
  destruct (socket_join_run sid (opt_get userData "_id") st) as [Hr Hs].
  rewrite (bind_run _ _ st tt (after (socket_join sid (opt_get userData "_id") st)) []);
    [| by rewrite <- Hr, <- Hs, run_eta].
  rewrite (get_non_nullish _ "name" Hn), bind_eval_Normal, bind_eval_Normal.
  unfold console_log_template. cbn [forallb]. rewrite andb_true_r.
  by destruct (printable (opt_get userData "name") && printable (opt_get userData "_id")).
Qed.

Lemma after_on_setup sid userData st :
  truthy (opt_get userData "_id") = true →
  after (on_setup sid userData st) = after (socket_join sid (opt_get userData "_id") st).
Proof.
  intros Ht. rewrite on_setup_truthy by done. by destruct (_ && _).
Qed.

Lemma after_on_join_chat sid roomId st :
  after (on_join_chat sid roomId st) = after (socket_join sid roomId st).
Proof.
  unfold on_join_chat. destruct (socket_join_run sid roomId st) as [Hr Hs].
  rewrite (bind_run _ _ st tt (after (socket_join sid roomId st)) []);
    [| by rewrite <- Hr, <- Hs, run_eta].
  unfold console_log_template. by destruct (forallb printable [roomId]).
Qed.

End Setup.

Section NewMessage.

Implicit Types (st : server) (s sid : string) (users : list value).

Lemma identities_non_nullish users ids :
  identities users ids → Forall (λ u, nullish u = false) users.
Proof.
  induction 1 as [|u i users ids Hu _ IH]; constructor; [| done].
  by eapply get_Normal_non_nullish.
Qed.

Lemma listed_non_nullish users :
  listed users → Forall (λ u, nullish u = false) users.
Proof. intros Hl. eapply Forall_impl; [exact Hl |]. by intros u [Hu _]. Qed.

(** The loop of the handler, for user records and a sender that read
    without throwing. *)
Lemma for_each_fan_out st message sender sender_id users :
  get message "sender" = Normal sender →
  get sender "_id" = Normal sender_id →
  Forall (λ u, nullish u = false) users →
  for_each (λ user,
      uid ← eval (get user "_id");
      sender ← eval (get message "sender");
      sender_id ← eval (get sender "_id");
      if strict_eq uid sender_id then mret tt
      else io_to_emit uid "message received" [message]) users st
  = Run (Normal tt) st (fan_out st message sender_id users).
Proof.
  intros Hs Hid. induction 1 as [|u users Hu _ IH]; [done |].
  cbn [for_each fan_out flat_map].
  rewrite (bind_run _ _ st tt st
    (if strict_eq (opt_get u "_id") sender_id then []
     else (λ s, Delivery s "message received" [message]) <$> targets st (opt_get u "_id")));
    last first.
  { rewrite (get_non_nullish _ "_id" Hu), bind_eval_Normal, Hs, bind_eval_Normal,
      Hid, bind_eval_Normal.
    destruct (strict_eq (opt_get u "_id") sender_id); reflexivity. }
  rewrite IH. cbn [result after sent].
  by destruct (strict_eq (opt_get u "_id") sender_id).
Qed.

Lemma on_new_message_run st message sender_id users :
  is_envelope message sender_id users →
  Forall (λ u, nullish u = false) users →
  on_new_message message st = Run (Normal tt) st (fan_out st message sender_id users).
Proof.
  intros (chat & sender & Hchat & Husers & Hsender & Hid) Hall.
  unfold on_new_message. rewrite Hchat, bind_eval_Normal.
  rewrite (get_Normal_opt_get _ _ _ Husers), Husers. cbn [truthy negb].
  rewrite bind_eval_Normal. unfold value_for_each.
  by apply for_each_fan_out with sender.
Qed.

(** An envelope without [chat], or whose [chat.users] is missing or
    empty-like, is dropped. *)
Lemma on_new_message_no_users st message :
  nullish message = false →
  truthy (opt_get (opt_get message "chat") "users") = false →
  on_new_message message st = Run (Normal tt) st [].
Proof.
  intros Hm Hu. unfold on_new_message.
  rewrite (get_non_nullish _ "chat" Hm), bind_eval_Normal. by rewrite Hu.
Qed.

Lemma count_to_fan_out st message sender_id users s :
  count_to s (fan_out st message sender_id users) =
  length (filter (λ u, strict_eq (opt_get u "_id") sender_id = false
                       ∧ s ∈ targets st (opt_get u "_id")) users).
Proof.
  induction users as [|u users IH]; [done |].
  cbn [fan_out flat_map]. rewrite count_to_app, filter_cons. fold (fan_out st message sender_id users).
  rewrite IH. destruct (strict_eq (opt_get u "_id") sender_id) eqn:Heq.
  - rewrite decide_False by (intros [? _]; discriminate). done.
  - rewrite count_to_broadcast by apply targets_NoDup.
    destruct (decide (s ∈ targets st (opt_get u "_id"))) as [Hin | Hnin].
    + by rewrite decide_True.
    + rewrite decide_False by (intros [_ ?]; done). done.
Qed.

End NewMessage.

Section Signaling.

Implicit Types (st : server) (s sid : string) (ev : inbound).

(** Every signaling handler reads [data.to] first: a payload that is
    [undefined] or [null] throws before anything is sent. *)
Lemma signaling_throws sid ev st :
  is_signaling ev = true → nullish (payload_of ev) = true →
  handle sid ev st = Run TypeError st [].
Proof.
  destruct ev as [v|v|v|v|v|v|v|v|v|v|v]; try discriminate; intros _ Hn;
    cbn in Hn; destruct v; try discriminate; reflexivity.
Qed.

(** Otherwise it makes one broadcast to the room [data.to] names. *)
Lemma signaling_run sid ev st :
  is_signaling ev = true → nullish (payload_of ev) = false →
  handle sid ev st =
    Run (Normal tt) st
        ((λ s, Delivery s (forwarded ev).1 [(forwarded ev).2])
           <$> targets st (opt_get (payload_of ev) "to")).
Proof.
  destruct ev as [v|v|v|v|v|v|v|v|v|v|v]; try discriminate; intros _ Hn;
    cbn [payload_of] in *; cbn [handle forwarded fst snd];
    unfold on_call_user, on_call_accepted, on_prepare_call, on_ready_for_offer,
      on_webrtc_offer, on_webrtc_answer, on_webrtc_ice_candidate, on_end_call,
      relay_from, relay_data;
    rewrite ?(get_non_nullish _ _ Hn), ?bind_eval_Normal; reflexivity.
Qed.

Lemma signaling_count sid ev st v r s :
  is_signaling ev = true →
  get (payload_of ev) "to" = Normal v → name_of v = Some r →
  count_to s (sent (handle sid ev st)) = if decide (s ∈ members st r) then 1 else 0.
Proof.
  intros Hev Hto Hr.
  rewrite (signaling_run sid ev st Hev (get_Normal_non_nullish _ _ _ Hto)).
  cbn [sent]. rewrite (get_Normal_opt_get _ _ _ Hto).
  rewrite count_to_broadcast by apply targets_NoDup.
  by rewrite (targets_primitive st v r Hr).
Qed.

End Signaling.

Section KeepsRegistry.

Lemma keeps_ret {A} (a : A) : keeps_registry (mret a : handler A).
Proof. by intros st. Qed.

Lemma keeps_eval {A} (c : completion A) : keeps_registry (eval c).
Proof. by destruct c. Qed.

Lemma keeps_bind {A B} (m : handler A) (k : A → handler B) :
  keeps_registry m → (∀ a, keeps_registry (k a)) → keeps_registry (m ≫= k).
Proof.
  intros Hm Hk st. run_handler. specialize (Hm st).
  destruct (m st) as [[a|] st' out]; cbn in *; subst; [apply Hk | done].
Qed.

Lemma keeps_for_each {A} (f : A → handler unit) (xs : list A) :
  (∀ x, keeps_registry (f x)) → keeps_registry (for_each f xs).
Proof.
  intros Hf. induction xs as [|x xs IH]; [by intros st |].
  cbn [for_each]. apply keeps_bind; [apply Hf | by intros _].
Qed.

Lemma keeps_io_to_emit v ev payload : keeps_registry (io_to_emit v ev payload).
Proof. by intros st. Qed.

Lemma keeps_on_new_message message : keeps_registry (on_new_message message).
Proof.
  unfold on_new_message. apply keeps_bind; [apply keeps_eval |]. intros chat.
  destruct (negb _); [apply keeps_ret |].
  apply keeps_bind; [apply keeps_eval |]. intros users.
  destruct users; try (by intros st). cbn [value_for_each].
  apply keeps_for_each. intros u.
  repeat (apply keeps_bind; [apply keeps_eval | intros ?]).
  destruct (strict_eq _ _); [apply keeps_ret | apply keeps_io_to_emit].
Qed.

Lemma keeps_signaling sid ev :
  is_signaling ev = true → keeps_registry (handle sid ev).
Proof.
  intros Hev st. destruct (nullish (payload_of ev)) eqn:Hn.
  - by rewrite signaling_throws.
  - by rewrite signaling_run.
Qed.

(** Only [setup] and [join chat] touch the registry, and only by
    joining. *)
Lemma handle_keeps_rooms sid ev st s r :
  in_room st s r → in_room (after (handle sid ev st)) s r.
Proof.
  intros Hin. destruct (is_signaling ev) eqn:Hev.
  - by rewrite keeps_signaling.
  - destruct ev as [ud|roomId|message| | | | | | | |]; try discriminate; cbn [handle].
    + destruct (truthy (opt_get ud "_id")) eqn:Ht.
      * rewrite after_on_setup by done. by apply socket_join_keeps.
      * by rewrite on_setup_falsy.
    + rewrite after_on_join_chat. by apply socket_join_keeps.
    + by rewrite keeps_on_new_message.
Qed.

Lemma handle_keeps_live sid ev st s :
  is_Some (sockets st !! s) → is_Some (sockets (after (handle sid ev st)) !! s).
Proof.
  intros [rs Hs]. destruct (is_signaling ev) eqn:Hev.
  - rewrite keeps_signaling by done. by exists rs.
  - assert (∀ v, is_Some (sockets (after (socket_join sid v st)) !! s)) as Hjoin.
    { intros v. destruct (socket_join_sockets sid v st) as [rooms ->].
      destruct (decide (sid = s)) as [-> | Hne].
      - rewrite lookup_alter_eq, Hs. by eexists.
      - rewrite lookup_alter_ne by done. by exists rs. }
    destruct ev as [ud|roomId|message| | | | | | | |]; try discriminate; cbn [handle].
    + destruct (truthy (opt_get ud "_id")) eqn:Ht.
      * rewrite after_on_setup by done. apply Hjoin.
      * rewrite on_setup_falsy by done. by exists rs.
    + rewrite after_on_join_chat. apply Hjoin.
    + rewrite keeps_on_new_message. by exists rs.
Qed.

End KeepsRegistry.

Section SetupAll.

Implicit Types (st : server) (s sid : string) (who : list (string * value)).

Lemma setup_all_keeps who st s r :
  in_room st s r → in_room (setup_all who st) s r.
Proof.
  revert st. induction who as [|p who IH]; intros st Hin; [done |].
  apply IH. by apply (handle_keeps_rooms p.1 (Setup p.2)).
Qed.

Lemma truthy_VStr (i : string) : i ≠ "" → truthy (VStr i) = true.
Proof. intros Hi. cbn. by destruct i. Qed.

Lemma on_setup_binds sid userData i st :
  i ≠ "" → opt_get userData "_id" = VStr i → is_Some (sockets st !! sid) →
  bound (after (on_setup sid userData st)) sid i.
Proof.
  intros Hi Hid Hlive. rewrite after_on_setup by (rewrite Hid; by apply truthy_VStr).
  rewrite Hid. by apply socket_join_joins.
Qed.

Lemma setup_all_binds who st i :
  i ≠ "" →
  Forall (λ p, is_Some (sockets st !! p.1) ∧ opt_get p.2 "_id" = VStr i) who →
  ∀ p, p ∈ who → bound (setup_all who st) p.1 i.
Proof.
  intros Hi. revert st. induction who as [|q who IH]; intros st Hall p Hp.
  { by apply elem_of_nil in Hp. }
  apply Forall_cons in Hall as [[Hlive Hid] Hall].
  change (setup_all (q :: who) st) with (setup_all who (after (on_setup q.1 q.2 st))).
  apply elem_of_cons in Hp as [-> | Hp].
  - apply setup_all_keeps. by apply on_setup_binds.
  - apply IH; [| done]. eapply Forall_impl; [exact Hall |].
    intros p' [Hl Hp']. split; [| done].
    by apply (handle_keeps_live q.1 (Setup q.2)).
Qed.

End SetupAll.

(** * The claims *)

(** Setup binding and reply, where the log line completes.  A [setup]
    whose payload has no usable [_id] (the payload or the field is
    missing, or the field is empty) does nothing: the registry is
    unchanged and nothing is sent.  A [setup] with a non-empty [_id]
    puts the session in the room that identity names and leaves every
    other session as it was; when [name] and [_id] convert to strings
    it sends exactly one packet, [connected], to the session that sent
    [setup]. *)
Theorem setup_binds_and_replies (st : server) (sid : string) (userData : value) :
  (truthy (opt_get userData "_id") = false →
     handle sid (Setup userData) st = Run (Normal tt) st []) ∧
  (truthy (opt_get userData "_id") = true →
     (∀ r, name_of (opt_get userData "_id") = Some r →
           is_Some (sockets st !! sid) →
           in_room (after (handle sid (Setup userData) st)) sid r) ∧
     (∀ s, s ≠ sid →
           sockets (after (handle sid (Setup userData) st)) !! s = sockets st !! s) ∧
     (printable (opt_get userData "name") = true →
      printable (opt_get userData "_id") = true →
      result (handle sid (Setup userData) st) = Normal tt ∧
      sent (handle sid (Setup userData) st) = [Delivery sid "connected" []])).
Proof.
  cbn [handle]. split; intros Ht.
  - by apply on_setup_falsy.
  - rewrite after_on_setup by done. split_and!.
    + intros r Hr Hlive. by apply socket_join_joins.
    + intros s Hs. by apply socket_join_other.
    + intros Hname Hid. rewrite on_setup_truthy by done. by rewrite Hname, Hid.
Qed.

(** C7 — Setup binding and reply, at a payload the handler does not
    survive.  The session s1 sends [setup] with a non-empty [_id] and a
    [name] that is an object with a [toString] entry.  The handler joins
    room u1, then throws in the log line while converting the name, and
    never sends [connected]. *)
Theorem setup_reply_lost :
  truthy (opt_get unprintable_user "_id") = true ∧
  handle "s1" (Setup unprintable_user) (connect "s1" no_sockets) =
    Run TypeError
        (after (socket_join "s1" (VStr "u1") (connect "s1" no_sockets)))
        [] ∧
  bound (after (handle "s1" (Setup unprintable_user) (connect "s1" no_sockets)))
        "s1" "u1".
Proof.
  split_and!; [done | by vm_compute |].
  exists [RStr "s1"; RStr "u1"]. split; [by vm_compute | by right; left].
Qed.

(** C2 — Multi-device targeted delivery.  Let any number of live
    sessions each send [setup] with identity B.  Then [call-user] with
    [to] = B completes normally and every session bound to B, each of
    those sessions among them, is handed exactly one packet; every
    packet sent is [incoming-call] carrying [from], [name] and
    [callType] of the request. *)
Theorem multi_device_delivery (st : server) (who : list (string * value))
    (B caller : string) (data : value) :
  B ≠ "" →
  Forall (λ p, is_Some (sockets st !! p.1) ∧ opt_get p.2 "_id" = VStr B) who →
  get data "to" = Normal (VStr B) →
  result (handle caller (CallUser data) (setup_all who st)) = Normal tt ∧
  (∀ p, p ∈ who → bound (setup_all who st) p.1 B) ∧
  (∀ s, bound (setup_all who st) s B →
        count_to s (sent (handle caller (CallUser data) (setup_all who st))) = 1) ∧
  Forall (λ d, event d = "incoming-call" ∧
               args d = [VObj [("from", opt_get data "from");
                               ("name", opt_get data "name");
                               ("callType", opt_get data "callType")]])
         (sent (handle caller (CallUser data) (setup_all who st))).
Proof.
  intros HB Hwho Hto.
  pose proof (get_Normal_non_nullish _ _ _ Hto) as Hn.
  split_and!.
  - by rewrite (signaling_run caller (CallUser data)).
  - by apply setup_all_binds.
  - intros s Hs%bound_members.
    rewrite (signaling_count caller (CallUser data) _ (VStr B) (RStr B)) by done.
    by rewrite decide_True.
  - rewrite (signaling_run caller (CallUser data)) by done. cbn [sent].
    apply Forall_fmap, Forall_forall. by intros.
Qed.

Lemma multi_device_delivery_witness :
  count_to "b1" (sent (handle "a1" (CallUser (VObj [("to", VStr "uB"); ("from", VStr "uA")]))
      (setup_all [("b1", user "uB"); ("b2", user "uB")]
         (connect_all ["a1"; "b1"; "b2"] no_sockets)))) = 1 ∧
  count_to "b2" (sent (handle "a1" (CallUser (VObj [("to", VStr "uB"); ("from", VStr "uA")]))
      (setup_all [("b1", user "uB"); ("b2", user "uB")]
         (connect_all ["a1"; "b1"; "b2"] no_sockets)))) = 1.
Proof.
  assert (Forall (λ p : string * value,
            is_Some (sockets (connect_all ["a1"; "b1"; "b2"] no_sockets) !! p.1)
            ∧ opt_get p.2 "_id" = VStr "uB")
          [("b1", user "uB"); ("b2", user "uB")]) as Hwho.
  { repeat (apply Forall_cons; split; [split; [eexists; vm_compute | ]; reflexivity |]).
    constructor. }
  destruct (multi_device_delivery (connect_all ["a1"; "b1"; "b2"] no_sockets)
              [("b1", user "uB"); ("b2", user "uB")] "uB" "a1"
              (VObj [("to", VStr "uB"); ("from", VStr "uA")])
              ltac:(discriminate) Hwho eq_refl) as (_ & Hbound & Hcount & _).
  split; apply Hcount.
  - apply (Hbound ("b1", user "uB")). left.
  - apply (Hbound ("b2", user "uB")). right. left.
Defined.

Section Scenario.

Lemma filter_none {A} (P : A → Prop) `{!∀ x, Decision (P x)} (l : list A) :
  (∀ x, x ∈ l → ¬ P x) → filter P l = [].
Proof.
  induction l as [|x l IH]; [done |]. intros Hno. rewrite filter_cons.
  rewrite decide_False by (apply Hno; left). apply IH. intros y Hy. apply Hno. by right.
Qed.

Lemma strict_eq_VStr (x y : string) : strict_eq (VStr x) (VStr y) = bool_decide (x = y).
Proof.
  cbn. destruct (String.eqb_spec x y) as [-> | Hne].
  - by rewrite bool_decide_eq_true_2.
  - by rewrite bool_decide_eq_false_2.
Qed.

Lemma name_of_inj v w r : name_of v = Some r → name_of w = Some r → v = w.
Proof. destruct v, w; cbn; intros Hv Hw; congruence. Qed.


(** The four sessions of [four_sessions] and their bindings. *)
Lemma four_sessions_uA s : bound four_sessions s "uA" ↔ s = "a1" ∨ s = "a2".
Proof.
  rewrite bound_members.
  let l := eval vm_compute in (members four_sessions (RStr "uA")) in
    change (members four_sessions (RStr "uA")) with l.
  rewrite !elem_of_cons, elem_of_nil. tauto.
Qed.

Lemma four_sessions_uB s : bound four_sessions s "uB" ↔ s = "b1".
Proof.
  rewrite bound_members.
  let l := eval vm_compute in (members four_sessions (RStr "uB")) in
    change (members four_sessions (RStr "uB")) with l.
  rewrite elem_of_cons, elem_of_nil. tauto.
Qed.

Lemma four_sessions_uC s : bound four_sessions s "uC" ↔ s = "c1".
Proof.
  rewrite bound_members.
  let l := eval vm_compute in (members four_sessions (RStr "uC")) in
    change (members four_sessions (RStr "uC")) with l.
  rewrite elem_of_cons, elem_of_nil. tauto.
Qed.

Lemma hello_envelope : is_envelope hello (VStr "uA") [user "uA"; user "uB"; user "uC"].
Proof. do 2 eexists. by split_and!. Qed.

Lemma hello_listed : listed [user "uA"; user "uB"; user "uC"].
Proof.
  repeat (apply Forall_cons; split; [by split; [| eexists] |]). constructor.
Qed.

Lemma hello_identities :
  identities [user "uA"; user "uB"; user "uC"] ["uA"; "uB"; "uC"].
Proof. by repeat constructor. Qed.

End Scenario.

(** C1 — Fan-out self-exclusion.  Take any envelope whose sender is A
    and whose [chat.users] lists A, B and C, in a registry where the
    sessions bound to A are a1 and a2, the one bound to B is b1 and the
    one bound to C is c1, the four being different sessions.  Handling
    [new message], whichever session sent it, completes normally, leaves
    the registry alone and sends exactly two packets, [message received]
    with the envelope, one to b1 and one to c1; a session bound to A
    gets none. *)
Theorem fan_out_self_exclusion (st : server) (message uA uB uC : value)
    (A B C a1 a2 b1 c1 origin : string) :
  is_envelope message (VStr A) [uA; uB; uC] →
  identities [uA; uB; uC] [A; B; C] →
  A ≠ B → A ≠ C →
  (∀ s, bound st s A ↔ s = a1 ∨ s = a2) →
  (∀ s, bound st s B ↔ s = b1) →
  (∀ s, bound st s C ↔ s = c1) →
  a1 ≠ b1 → a1 ≠ c1 → a2 ≠ b1 → a2 ≠ c1 →
  handle origin (NewMessage message) st =
    Run (Normal tt) st
        [Delivery b1 "message received" [message];
         Delivery c1 "message received" [message]] ∧
  (∀ s, bound st s A →
        count_to s (sent (handle origin (NewMessage message) st)) = 0).
Proof.
  intros Henv Hids HAB HAC HA HB HC Hab1 Hac1 Hab2 Hac2.
  assert (members st (RStr B) = [b1]) as HmB.
  { apply NoDup_only; [apply members_NoDup | by apply bound_members, HB |].
    intros y Hy. by apply HB, bound_members. }
  assert (members st (RStr C) = [c1]) as HmC.
  { apply NoDup_only; [apply members_NoDup | by apply bound_members, HC |].
    intros y Hy. by apply HC, bound_members. }
  assert (handle origin (NewMessage message) st =
    Run (Normal tt) st
        [Delivery b1 "message received" [message];
         Delivery c1 "message received" [message]]) as Hrun.
  { cbn [handle].
    rewrite (on_new_message_run st message (VStr A) [uA; uB; uC] Henv
               (identities_non_nullish _ _ Hids)).
    f_equal. unfold identities in Hids.
    apply Forall2_cons in Hids as [HuA Hids].
    apply Forall2_cons in Hids as [HuB Hids].
    apply Forall2_cons in Hids as [HuC _].
    unfold fan_out. cbn [flat_map].
    rewrite (get_Normal_opt_get _ _ _ HuA), (get_Normal_opt_get _ _ _ HuB),
      (get_Normal_opt_get _ _ _ HuC), !strict_eq_VStr.
    rewrite bool_decide_eq_true_2 by done.
    rewrite !bool_decide_eq_false_2 by congruence.
    rewrite (targets_primitive st (VStr B) (RStr B)), (targets_primitive st (VStr C) (RStr C))
      by done.
    rewrite HmB, HmC. reflexivity. }
  split; [exact Hrun |].
  intros s [-> | ->]%HA; rewrite Hrun; cbn [sent]; unfold count_to;
    rewrite !filter_cons, filter_nil; cbn [recipient];
    by rewrite !decide_False by congruence.
Qed.

Lemma fan_out_self_exclusion_witness :
  handle "a1" (NewMessage hello) four_sessions =
    Run (Normal tt) four_sessions
        [Delivery "b1" "message received" [hello];
         Delivery "c1" "message received" [hello]] ∧
  (∀ s, bound four_sessions s "uA" →
        count_to s (sent (handle "a1" (NewMessage hello) four_sessions)) = 0).
Proof.
  apply (fan_out_self_exclusion four_sessions hello (user "uA") (user "uB") (user "uC")
           "uA" "uB" "uC" "a1" "a2" "b1" "c1" "a1").
  - exact hello_envelope.
  - exact hello_identities.
  - discriminate.
  - discriminate.
  - exact four_sessions_uA.
  - exact four_sessions_uB.
  - exact four_sessions_uC.
  - discriminate.
  - discriminate.
  - discriminate.
  - discriminate.
Defined.

Section Routing.

Implicit Types (st : server) (s origin : string) (users : list value).

Lemma filter_some {A} (P : A → Prop) `{!∀ x, Decision (P x)} (l : list A) x :
  x ∈ l → P x → (1 ≤ length (filter P l))%nat.
Proof.
  intros Hx HP. assert (x ∈ filter P l) as Hin by by apply list_elem_of_filter.
  destruct (filter P l); [by apply elem_of_nil in Hin | cbn; lia].
Qed.

(** A session none of whose rooms is named by a listed user other than
    the sender gets no packet of the fan-out. *)
Lemma fan_out_misses st message sender_id users s rs :
  listed users →
  sockets st !! s = Some rs →
  (∀ u r, u ∈ users → strict_eq (opt_get u "_id") sender_id = false →
          name_of (opt_get u "_id") = Some r → r ∉ rs) →
  count_to s (fan_out st message sender_id users) = 0.
Proof.
  intros Hl Hs Hmiss. rewrite count_to_fan_out, filter_none; [done |].
  intros u Hu [Hne Hin].
  destruct (proj1 (Forall_forall _ _) Hl u Hu) as [_ [r Hr]].
  rewrite (targets_primitive st _ r Hr) in Hin.
  apply members_spec in Hin as (rs' & Hs' & Hr').
  rewrite Hs in Hs'. injection Hs' as <-. by eapply Hmiss.
Qed.

End Routing.




(** C9 — Message routing ignores chat-room membership.  For an envelope
    that reads without throwing and lists user records, the number of
    [message received] packets a session gets is the number of listed
    users, other than the sender, whose identity names a room the
    session is in.  Hence a
    session bound to a listed identity other than the sender gets the
    message whatever chats it joined or did not join; and a session
    none of whose rooms is named by such a listed identity still gets
    nothing after it sends [join chat] for a chat id (a string, number
    or other primitive) that is not itself one of the listed
    identities. *)
Theorem routing_ignores_chat_rooms (st : server) (origin : string)
    (message sender_id : value) (users : list value) :
  is_envelope message sender_id users →
  listed users →
  (∀ s, count_to s (sent (handle origin (NewMessage message) st)) =
        length (filter (λ u, strict_eq (opt_get u "_id") sender_id = false
                             ∧ s ∈ targets st (opt_get u "_id")) users)) ∧
  (∀ s u i, u ∈ users → opt_get u "_id" = VStr i →
            strict_eq (VStr i) sender_id = false → bound st s i →
            (1 ≤ count_to s (sent (handle origin (NewMessage message) st)))%nat) ∧
  (∀ s rs chatId,
     sockets st !! s = Some rs →
     (∀ u r, u ∈ users → strict_eq (opt_get u "_id") sender_id = false →
             name_of (opt_get u "_id") = Some r → r ∉ rs) →
     is_Some (name_of chatId) →
     (∀ u, u ∈ users → opt_get u "_id" ≠ chatId) →
     count_to s (sent (handle origin (NewMessage message)
                         (after (handle s (JoinChat chatId) st)))) = 0).
Proof.
  intros Henv Hl. pose proof (listed_non_nullish _ Hl) as Hall. cbn [handle].
  assert (∀ st', sent (on_new_message message st') = fan_out st' message sender_id users)
    as Hsent by (intros st'; by rewrite (on_new_message_run st' message sender_id users)).
  split_and!.
  - intros s. rewrite Hsent. apply count_to_fan_out.
  - intros s u i Hu Hi Hne Hb. rewrite Hsent, count_to_fan_out.
    apply filter_some with u; [done |]. rewrite Hi. split; [done |].
    rewrite (targets_primitive st (VStr i) (RStr i)) by done. by apply bound_members.
  - intros s rs chatId Hs Hmiss [rc Hrc] Hchat. rewrite Hsent, after_on_join_chat.
    rewrite (socket_join_primitive s chatId rc st Hrc). cbn [after].
    apply fan_out_misses with (add_room rc rs); [done | |].
    { cbn [sockets]. by rewrite lookup_alter_eq, Hs. }
    intros u r Hu Hne Hr [-> | Hin]%elem_of_add_room; [| by eapply Hmiss].
    apply (Hchat u Hu). by apply (name_of_inj _ _ rc).
Qed.

Lemma routing_ignores_chat_rooms_witness :
  (1 ≤ count_to "b1" (sent (handle "a1" (NewMessage hello) five_sessions)))%nat ∧
  count_to "d1" (sent (handle "a1" (NewMessage hello)
                   (after (handle "d1" (JoinChat (VStr "chat1")) five_sessions)))) = 0.
Proof.
  destruct (routing_ignores_chat_rooms five_sessions "a1" hello (VStr "uA")
              [user "uA"; user "uB"; user "uC"] hello_envelope hello_listed)
    as (_ & Hlisted & Hjoined).
  split.
  - apply (Hlisted "b1" (user "uB") "uB"); [by right; left | done | done |].
    exists [RStr "b1"; RStr "uB"]. split; [by vm_compute | by right; left].
  - apply (Hjoined "d1" [RStr "d1"; RStr "uD"] (VStr "chat1"));
      [by vm_compute | | by eexists |].
    + intros u r Hu _ Hr Hin.
      assert (r = RStr "uA" ∨ r = RStr "uB" ∨ r = RStr "uC") as Hcases.
      { revert Hu Hr. rewrite !elem_of_cons, elem_of_nil.
        intros [-> | [-> | [-> | []]]]; cbn; intros [= <-]; tauto. }
      revert Hin. rewrite !elem_of_cons, elem_of_nil.
      destruct Hcases as [-> | [-> | ->]]; intros [? | [? | []]]; discriminate.
    + intros u. rewrite !elem_of_cons, elem_of_nil.
      intros [-> | [-> | [-> | []]]]; discriminate.
Defined.

Section Disconnecting.

Implicit Types (st : server) (s sid m : string) (rs : list room).

Lemma for_each_farewell st sid rs :
  for_each (λ room,
      if decide (room ≠ RStr sid)
      then io_room_emit room "peer-disconnected" [VObj [("socketId", VStr sid)]]
      else mret tt) rs st
  = Run (Normal tt) st
        (flat_map (farewell st sid) (filter (λ room, room ≠ RStr sid) rs)).
Proof.
  induction rs as [|r rs IH]; [done |].
  cbn [for_each]. rewrite filter_cons.
  rewrite (bind_run _ _ st tt st
             (if decide (r ≠ RStr sid) then farewell st sid r else []));
    [| by destruct (decide (r ≠ RStr sid))].
  rewrite IH. cbn [result after sent].
  by destruct (decide (r ≠ RStr sid)).
Qed.

Lemma on_disconnecting_run st sid rs :
  sockets st !! sid = Some rs →
  on_disconnecting sid st =
    Run (Normal tt) st
        (flat_map (farewell st sid) (filter (λ room, room ≠ RStr sid) rs)).
Proof.
  intros Hs. unfold on_disconnecting.
  rewrite (bind_run _ _ st rs st []); [| unfold socket_rooms; by rewrite Hs].
  rewrite for_each_farewell. reflexivity.
Qed.

Lemma count_to_farewell st sid r m :
  ¬ array_key st r →
  count_to m (farewell st sid r) = if decide (in_room st m r) then 1 else 0.
Proof.
  intros Hr. unfold farewell. rewrite (audience_plain st r Hr).
  rewrite count_to_broadcast by apply members_NoDup.
  destruct (decide (m ∈ members st r)) as [Hin | Hnin].
  - by rewrite decide_True by by apply in_room_members.
  - by rewrite decide_False by by rewrite in_room_members.
Qed.

Lemma count_to_farewells st sid m (rooms : list room) :
  (∀ room, room ∈ rooms → ¬ array_key st room) →
  count_to m (flat_map (farewell st sid) rooms) =
  length (filter (λ room, in_room st m room) rooms).
Proof.
  induction rooms as [|r rooms IH]; intros Hplain; [done |].
  cbn [flat_map]. rewrite count_to_app, filter_cons, count_to_farewell, IH.
  - by destruct (decide (in_room st m r)).
  - intros room Hroom. apply Hplain. by right.
  - apply Hplain. left.
Qed.

End Disconnecting.

Section Reachable.

Implicit Types (st : server) (s sid : string) (rs : list room).

(** A handler changes the registry by one [join] of the sending socket
    or not at all. *)
Lemma handle_sockets sid ev st :
  sockets (after (handle sid ev st)) = sockets st ∨
  ∃ rooms, sockets (after (handle sid ev st)) = alter (add_rooms rooms) sid (sockets st).
Proof.
  destruct (is_signaling ev) eqn:Hev.
  { left. by rewrite keeps_signaling. }
  destruct ev as [ud|roomId|message| | | | | | | |]; try discriminate; cbn [handle].
  - destruct (truthy (opt_get ud "_id")) eqn:Ht.
    + right. rewrite after_on_setup by done. apply socket_join_sockets.
    + left. by rewrite on_setup_falsy.
  - right. rewrite after_on_join_chat. apply socket_join_sockets.
  - left. by rewrite keeps_on_new_message.
Qed.

(** In a reachable registry [socket.rooms] lists each room once and
    begins life with the room named by the socket's id. *)
Lemma reachable_rooms st :
  reachable st →
  ∀ s rs, sockets st !! s = Some rs → NoDup rs ∧ RStr s ∈ rs.
Proof.
  induction 1 as [|st sid Hst IH Hfresh|st sid ev Hst IH Hlive|st sid Hst IH [rs0 Hlive]];
    intros s rs Hs.
  - cbn in Hs. by rewrite lookup_empty in Hs.
  - cbn in Hs. destruct (decide (sid = s)) as [-> | Hne].
    + rewrite lookup_insert_eq in Hs. injection Hs as <-.
      split; [apply NoDup_singleton | left].
    + rewrite lookup_insert_ne in Hs by done. by apply IH.
  - destruct (handle_sockets sid ev st) as [Heq | [r Heq]]; rewrite Heq in Hs.
    + by apply IH.
    + destruct (decide (sid = s)) as [-> | Hne].
      * rewrite lookup_alter_eq in Hs.
        destruct (sockets st !! s) as [rs1|] eqn:Hs1; [| discriminate].
        injection Hs as <-. destruct (IH s rs1 Hs1) as [Hnd Hown].
        split; [by apply add_rooms_NoDup | apply elem_of_add_rooms; by right].
      * rewrite lookup_alter_ne in Hs by done. by apply IH.
  - rewrite (on_disconnecting_run st sid rs0 Hlive) in Hs. cbn in Hs.
    destruct (decide (sid = s)) as [-> | Hne].
    + by rewrite lookup_delete_eq in Hs.
    + rewrite lookup_delete_ne in Hs by done. by apply IH.
Qed.

End Reachable.

(** Disconnect notification, where no room of the session is keyed by
    an array.  When a live session disconnects, the handler completes
    normally, leaves the registry to Socket.IO and sends one broadcast
    of [peer-disconnected{socketId}] for each room of the session other
    than the room named by its own id, and nothing else.  One broadcast
    hands exactly one packet to each member of its room and none to
    anybody else.  So a session gets as many packets as it shares such
    rooms with the leaving session, and a session that shares none gets
    none.  In a reachable registry the rooms counted are pairwise
    different. *)
Theorem disconnect_notifies_shared_rooms (st : server) (sid : string) (rs : list room) :
  sockets st !! sid = Some rs →
  (∀ room, room ∈ rs → ¬ array_key st room) →
  result (on_disconnecting sid st) = Normal tt ∧
  after (on_disconnecting sid st) = st ∧
  sent (on_disconnecting sid st) =
    flat_map (farewell st sid) (filter (λ room, room ≠ RStr sid) rs) ∧
  (∀ room m, room ∈ rs →
             count_to m (farewell st sid room) =
             if decide (in_room st m room) then 1 else 0) ∧
  (∀ room, Forall (λ d, event d = "peer-disconnected" ∧
                        args d = [VObj [("socketId", VStr sid)]])
                  (farewell st sid room)) ∧
  (∀ m, count_to m (sent (on_disconnecting sid st)) =
        length (filter (λ room, in_room st m room)
                       (filter (λ room, room ≠ RStr sid) rs))) ∧
  (∀ m, (∀ room, room ∈ rs → room ≠ RStr sid → ¬ in_room st m room) →
        count_to m (sent (on_disconnecting sid st)) = 0) ∧
  (reachable st → NoDup (filter (λ room, room ≠ RStr sid) rs)).
Proof.
  intros Hs Hplain. rewrite (on_disconnecting_run st sid rs Hs). cbn [result after sent].
  assert (∀ room, room ∈ filter (λ room, room ≠ RStr sid) rs → ¬ array_key st room)
    as Hplain' by (intros room [_ Hin]%list_elem_of_filter; by apply Hplain).
  split_and!.
  - reflexivity.
  - reflexivity.
  - reflexivity.
  - intros room m Hroom. by apply count_to_farewell, Hplain.
  - intros room. unfold farewell. apply Forall_fmap, Forall_forall. by intros.
  - intros m. by apply count_to_farewells.
  - intros m Hnone. rewrite count_to_farewells, filter_none; [done | | done].
    intros room [Hne Hin]%list_elem_of_filter. by apply Hnone.
  - intros Hst. apply NoDup_filter. by apply (reachable_rooms st Hst sid).
Qed.

Lemma disconnect_notifies_shared_rooms_witness :
  count_to "b1" (sent (on_disconnecting "a1" in_chat1)) = 1 ∧
  count_to "a2" (sent (on_disconnecting "a1" in_chat1)) = 1 ∧
  count_to "c1" (sent (on_disconnecting "b1" (disconnect "a1" in_chat1))) = 1 ∧
  count_to "a2" (sent (on_disconnecting "b1" (disconnect "a1" in_chat1))) = 0.
Proof.
  assert (∀ st (rs : list room), rs ⊆ [RStr "a1"; RStr "b1"; RStr "uA"; RStr "uB"; RStr "chat1"] →
            ∀ room, room ∈ rs → ¬ array_key st room) as Hplain.
  { intros st rs Hsub room Hroom%Hsub. revert Hroom. rewrite !elem_of_cons, elem_of_nil.
    intros [-> | [-> | [-> | [-> | [-> | []]]]]] []. }
  destruct (disconnect_notifies_shared_rooms in_chat1 "a1"
              [RStr "a1"; RStr "uA"; RStr "chat1"] ltac:(by vm_compute))
    as (_ & _ & _ & _ & _ & Ha1 & _ & _).
  { apply Hplain. intros r. rewrite !elem_of_cons, !elem_of_nil. tauto. }
  destruct (disconnect_notifies_shared_rooms (disconnect "a1" in_chat1) "b1"
              [RStr "b1"; RStr "uB"; RStr "chat1"] ltac:(by vm_compute))
    as (_ & _ & _ & _ & _ & Hb1 & Hnone & _).
  { apply Hplain. intros r. rewrite !elem_of_cons, !elem_of_nil. tauto. }
  split_and!.
  - rewrite Ha1. by vm_compute.
  - rewrite Ha1. by vm_compute.
  - rewrite Hb1. by vm_compute.
  - apply Hnone. intros room Hroom Hne [rs' [Hrs' Hin]].
    vm_compute in Hrs'. injection Hrs' as <-.
    revert Hroom Hin. rewrite !elem_of_cons, !elem_of_nil.
    intros [-> | [-> | [-> | []]]] [? | [? | []]]; discriminate.
Defined.

(** C3 — Disconnect notification, at a room id that is a nested
    array.  Two sessions s1 and s2 are connected and s1 sends
    [join chat] with the room id [[[]]], an array holding one empty
    array.  [socket.join] takes the outer array as a list of names and
    puts s1 in the room keyed by the inner array.  s2 is in its own
    room only, so the two sessions share no room.  When s1 disconnects,
    the handler passes that key to [io.to], which takes it as an empty
    list of names and so addresses every socket: s2 is handed
    [peer-disconnected] for a room it was never in. *)
Theorem disconnect_reaches_strangers :
  reachable after_nested_join ∧
  sockets after_nested_join !! "s1" = Some [RStr "s1"; RRef 0] ∧
  arrays after_nested_join !! 0 = Some [] ∧
  sockets after_nested_join !! "s2" = Some [RStr "s2"] ∧
  (∀ r, in_room after_nested_join "s1" r → ¬ in_room after_nested_join "s2" r) ∧
  on_disconnecting "s1" after_nested_join =
    Run (Normal tt) after_nested_join
        [Delivery "s1" "peer-disconnected" [VObj [("socketId", VStr "s1")]];
         Delivery "s2" "peer-disconnected" [VObj [("socketId", VStr "s1")]]] ∧
  count_to "s2" (sent (on_disconnecting "s1" after_nested_join)) = 1.
Proof.
  split_and!.
  - apply reach_event; [| by eexists].
    apply reach_connect; [| done]. apply reach_connect; [apply reach_start | done].
  - by vm_compute.
  - by vm_compute.
  - by vm_compute.
  - intros r [rs1 [Hs1 Hr1]] [rs2 [Hs2 Hr2]].
    vm_compute in Hs1, Hs2. injection Hs1 as <-. injection Hs2 as <-.
    revert Hr1 Hr2. rewrite !elem_of_cons, !elem_of_nil.
    intros [-> | [-> | []]] [? | []]; discriminate.
  - by vm_compute.
  - by vm_compute.
Qed.

(** C4, as the code has it — what happens to events that lack an
    addressing field.  An envelope without [chat], or without
    [chat.users], is dropped: nothing is sent, nothing is thrown, the
    registry is unchanged.  A signaling payload without [to] is
    addressed to the room named [undefined]: when no session is in such
    a room, nothing is sent and nothing is thrown.  A signaling payload
    without [from] is not dropped: it is relayed like any other, one
    packet to each session in the room [to] names. *)
Theorem malformed_events (st : server) (origin : string) :
  (∀ message,
     nullish message = false →
     truthy (opt_get (opt_get message "chat") "users") = false →
     handle origin (NewMessage message) st = Run (Normal tt) st []) ∧
  (∀ ev,
     is_signaling ev = true →
     get (payload_of ev) "to" = Normal VUndef →
     (∀ s, ¬ in_room st s RUndef) →
     handle origin ev st = Run (Normal tt) st []) ∧
  (∀ ev v r,
     is_signaling ev = true →
     get (payload_of ev) "from" = Normal VUndef →
     get (payload_of ev) "to" = Normal v → name_of v = Some r →
     result (handle origin ev st) = Normal tt ∧
     ∀ s, in_room st s r → count_to s (sent (handle origin ev st)) = 1).
Proof.
  split_and!.
  - intros message Hm Hu. by apply on_new_message_no_users.
  - intros ev Hev Hto Hnone.
    rewrite (signaling_run origin ev st Hev (get_Normal_non_nullish _ _ _ Hto)).
    rewrite (get_Normal_opt_get _ _ _ Hto), (targets_primitive st VUndef RUndef) by done.
    rewrite (NoDup_none (members st RUndef)); [done |].
    intros s Hs%in_room_members. by apply (Hnone s).
  - intros ev v r Hev _ Hto Hr. split.
    + by rewrite (signaling_run origin ev st Hev (get_Normal_non_nullish _ _ _ Hto)).
    + intros s Hs%in_room_members.
      rewrite (signaling_count origin ev st v r) by done. by rewrite decide_True.
Qed.

Lemma malformed_events_witness :
  handle "a1" (NewMessage (VObj [("sender", user "uA")])) four_sessions
    = Run (Normal tt) four_sessions [] ∧
  handle "a1" (EndCall (VObj [])) four_sessions = Run (Normal tt) four_sessions [] ∧
  count_to "b1" (sent (handle "a1" (ReadyForOffer ready_reply) four_sessions)) = 1.
Proof.
  destruct (malformed_events four_sessions "a1") as (Hmsg & Hto & Hfrom).
  split_and!.
  - by apply Hmsg.
  - apply Hto; [done | done |]. intros s Hs%in_room_members.
    vm_compute in Hs. by apply elem_of_nil in Hs.
  - apply (Hfrom (ReadyForOffer ready_reply) (VStr "uB") (RStr "uB")); try done.
    by apply four_sessions_uB.
Defined.

(** C4, as the claim states it, fails: the client's own reply to
    [prepare-call] carries no [from], and the relay hands it to the
    session of uB all the same, with [from] undefined. *)
Lemma missing_from_is_relayed :
  get ready_reply "from" = Normal VUndef ∧
  handle "a1" (ReadyForOffer ready_reply) four_sessions =
    Run (Normal tt) four_sessions
        [Delivery "b1" "ready-for-offer" [VObj [("from", VUndef)]]].
Proof. split; [reflexivity | by vm_compute]. Qed.

(** C6 — Opaque-payload round trip.  A relays [webrtc-offer] to B, then
    B replies with [webrtc-answer{to: A, from: B, answer: Y}].  The
    offer leaves the registry as it was; the answer completes normally
    and every session bound to A is handed exactly one packet; every
    packet sent goes to a session bound to A, is [webrtc-answer], and
    carries the reply itself, so its [answer] is Y and its [from] is
    B. *)
Theorem offer_answer_round_trip (st : server) (sa sb A B : string)
    (offer answer Y : value) :
  get offer "to" = Normal (VStr B) →
  get answer "to" = Normal (VStr A) →
  get answer "from" = Normal (VStr B) →
  get answer "answer" = Normal Y →
  after (handle sa (WebrtcOffer offer) st) = st ∧
  result (handle sb (WebrtcAnswer answer) (after (handle sa (WebrtcOffer offer) st)))
    = Normal tt ∧
  (∀ s, bound st s A →
        count_to s (sent (handle sb (WebrtcAnswer answer)
                            (after (handle sa (WebrtcOffer offer) st)))) = 1) ∧
  Forall (λ d, bound st (recipient d) A ∧ event d = "webrtc-answer" ∧
               ∃ payload, args d = [payload] ∧ payload = answer ∧
                          get payload "answer" = Normal Y ∧
                          get payload "from" = Normal (VStr B))
         (sent (handle sb (WebrtcAnswer answer)
                  (after (handle sa (WebrtcOffer offer) st)))).
Proof.
  intros Hoffer Hto Hfrom Hanswer.
  rewrite (keeps_signaling sa (WebrtcOffer offer) eq_refl st).
  pose proof (get_Normal_non_nullish _ _ _ Hto) as Hn.
  split_and!; [done | | |].
  - by rewrite (signaling_run sb (WebrtcAnswer answer)).
  - intros s Hs%bound_members.
    rewrite (signaling_count sb (WebrtcAnswer answer) st (VStr A) (RStr A)) by done.
    by rewrite decide_True.
  - rewrite (signaling_run sb (WebrtcAnswer answer)) by done.
    cbn [sent payload_of forwarded fst snd]. rewrite (get_Normal_opt_get _ _ _ Hto).
    apply Forall_fmap, Forall_forall. intros s Hs. cbn.
    split_and!; [by apply targets_bound | done |]. by exists answer.
Qed.

Lemma offer_answer_round_trip_witness :
  Forall (λ d, bound four_sessions (recipient d) "uA" ∧ event d = "webrtc-answer" ∧
               ∃ payload, args d = [payload] ∧
                 payload = VObj [("to", VStr "uA"); ("from", VStr "uB");
                                 ("answer", VObj [("type", VStr "answer"); ("sdp", VStr "v=0")])] ∧
                 get payload "answer"
                   = Normal (VObj [("type", VStr "answer"); ("sdp", VStr "v=0")]) ∧
                 get payload "from" = Normal (VStr "uB"))
    (sent (handle "b1"
             (WebrtcAnswer (VObj [("to", VStr "uA"); ("from", VStr "uB");
                                  ("answer", VObj [("type", VStr "answer"); ("sdp", VStr "v=0")])]))
             (after (handle "a1"
                (WebrtcOffer (VObj [("to", VStr "uB"); ("from", VStr "uA");
                                    ("offer", VObj [("type", VStr "offer"); ("sdp", VStr "v=0")])]))
                four_sessions)))).
Proof.
  apply (offer_answer_round_trip four_sessions "a1" "b1" "uA" "uB"); reflexivity.
Defined.

(** C8 — Unknown-destination drop.  A call-signaling event whose [to]
    names a room no session is in (an identity with no live session)
    completes normally, sends nothing to anybody, the sender included,
    and leaves the registry exactly as it was. *)
Theorem unknown_destination_dropped (st : server) (origin : string)
    (ev : inbound) (v : value) (r : room) :
  is_signaling ev = true →
  get (payload_of ev) "to" = Normal v →
  name_of v = Some r →
  (∀ s, ¬ in_room st s r) →
  handle origin ev st = Run (Normal tt) st [].
Proof.
  intros Hev Hto Hr Hnone.
  rewrite (signaling_run origin ev st Hev (get_Normal_non_nullish _ _ _ Hto)).
  rewrite (get_Normal_opt_get _ _ _ Hto), (targets_primitive st v r Hr).
  rewrite (NoDup_none (members st r)); [done |].
  intros s Hs%in_room_members. by apply (Hnone s).
Qed.

Lemma unknown_destination_dropped_witness :
  handle "a1" (CallUser (VObj [("to", VStr "ghost"); ("from", VStr "uA")])) four_sessions
  = Run (Normal tt) four_sessions [].
Proof.
  apply (unknown_destination_dropped four_sessions "a1"
           (CallUser (VObj [("to", VStr "ghost"); ("from", VStr "uA")]))
           (VStr "ghost") (RStr "ghost")); try reflexivity.
  intros s Hs%in_room_members. vm_compute in Hs. by apply elem_of_nil in Hs.
Defined.

(** C10 — Room membership only grows until disconnect.  Whatever event
    a client sends and however its handler completes, every live
    session is still live afterwards and is in every room it was in
    before.  In particular a session that sends [setup] twice, with
    identities i1 and then i2, is bound to both afterwards, and a
    call-signaling event addressed to either identity hands it exactly
    one packet. *)
Theorem rooms_only_grow :
  (∀ st origin ev s rs,
     sockets st !! s = Some rs →
     ∃ rs', sockets (after (handle origin ev st)) !! s = Some rs' ∧ rs ⊆ rs') ∧
  (∀ st sid userData1 userData2 i1 i2,
     is_Some (sockets st !! sid) →
     opt_get userData1 "_id" = VStr i1 → i1 ≠ "" →
     opt_get userData2 "_id" = VStr i2 → i2 ≠ "" →
     bound (after (handle sid (Setup userData2)
                     (after (handle sid (Setup userData1) st)))) sid i1 ∧
     bound (after (handle sid (Setup userData2)
                     (after (handle sid (Setup userData1) st)))) sid i2 ∧
     ∀ origin ev i,
       is_signaling ev = true → i = i1 ∨ i = i2 →
       get (payload_of ev) "to" = Normal (VStr i) →
       count_to sid (sent (handle origin ev
                             (after (handle sid (Setup userData2)
                                (after (handle sid (Setup userData1) st)))))) = 1).
Proof.
  split.
  - intros st origin ev s rs Hs.
    destruct (handle_keeps_live origin ev st s) as [rs' Hs']; [by exists rs |].
    exists rs'. split; [done |]. intros r Hr.
    destruct (handle_keeps_rooms origin ev st s r) as (rs'' & Hs'' & Hr'').
    { by exists rs. }
    rewrite Hs' in Hs''. by injection Hs'' as <-.
  - intros st sid ud1 ud2 i1 i2 Hlive Hi1 Hne1 Hi2 Hne2.
    assert (bound (after (handle sid (Setup ud1) st)) sid i1) as Hb1
      by by apply on_setup_binds.
    assert (bound (after (handle sid (Setup ud2) (after (handle sid (Setup ud1) st)))) sid i1)
      as Hb12 by by apply handle_keeps_rooms.
    assert (bound (after (handle sid (Setup ud2) (after (handle sid (Setup ud1) st)))) sid i2)
      as Hb2.
    { apply on_setup_binds; [done | done |]. by apply (handle_keeps_live sid (Setup ud1)). }
    split_and!; [done | done |].
    intros origin ev i Hev Hi Hto.
    rewrite (signaling_count origin ev _ (VStr i) (RStr i)) by done.
    rewrite decide_True; [done |]. apply bound_members. by destruct Hi as [-> | ->].
Qed.

Lemma rooms_only_grow_witness :
  bound (after (handle "b1" (Setup (user "uX"))
                  (after (handle "b1" (Setup (user "uB")) (connect "b1" no_sockets)))))
        "b1" "uB" ∧
  count_to "b1"
    (sent (handle "a1" (CallUser (VObj [("to", VStr "uX")]))
             (after (handle "b1" (Setup (user "uX"))
                (after (handle "b1" (Setup (user "uB")) (connect "b1" no_sockets)))))))
  = 1 ∧
  ∃ rs', sockets (after (handle "b1" (JoinChat (VStr "chat1")) four_sessions)) !! "b1"
           = Some rs' ∧ [RStr "b1"; RStr "uB"] ⊆ rs'.
Proof.
  destruct (proj2 rooms_only_grow (connect "b1" no_sockets) "b1"
              (user "uB") (user "uX") "uB" "uX") as (Hb & _ & Hcount);
    [by eexists | done | done | done | done |].
  split_and!.
  - exact Hb.
  - apply (Hcount "a1" (CallUser (VObj [("to", VStr "uX")])) "uX"); [done | by right | done].
  - apply (proj1 rooms_only_grow four_sessions "b1" (JoinChat (VStr "chat1")) "b1").
    by vm_compute.
Defined.

(** * Further properties of the relay *)

Section Loops.

Context {A : Type}.

Lemma bind_assoc {B C} (m : handler A) (k : A → handler B) (k' : B → handler C) st :
  ((m ≫= k) ≫= k') st = (m ≫= λ a, k a ≫= k') st.
Proof.
  run_handler. destruct (m st) as [[a|] st1 out1]; cbn [result after sent]; [| done].
  destruct (k a st1) as [[b|] st2 out2]; cbn [result after sent]; [| done].
  by rewrite app_assoc.
Qed.

Lemma for_each_app (f : A → handler unit) (xs ys : list A) st :
  for_each f (xs ++ ys) st = (for_each f xs ≫= λ _, for_each f ys) st.
Proof.
  revert st. induction xs as [|x xs IH]; intros st.
  - cbn [app for_each]. run_handler. by rewrite run_eta.
  - cbn [app for_each]. run_handler.
    destruct (f x st) as [[[]|] st1 out1]; cbn [result after sent]; [| done].
    rewrite IH. run_handler.
    destruct (for_each f xs st1) as [[[]|] st2 out2]; cbn [result after sent]; [| done].
    by rewrite app_assoc.
Qed.

End Loops.

Section Malformed.

Implicit Types (st : server) (origin : string) (users : list value).

Lemma nullish_get v k : nullish v = true → get v k = TypeError.
Proof. by destruct v. Qed.

Lemma name_of_nullish v : nullish v = true → ∃ r, name_of v = Some r.
Proof. destruct v; try discriminate; by eexists. Qed.

End Malformed.

(** X1 — An event sent without a payload.  With [undefined] or [null]
    in place of the payload, [setup] does nothing; [join chat] joins the
    room that value names, completes normally and sends nothing; every
    other handler throws on its first read, before anything is sent and
    without touching the registry. *)
Theorem missing_payload (st : server) (origin : string) (ev : inbound) :
  nullish (payload_of ev) = true →
  match ev with
  | Setup _ => handle origin ev st = Run (Normal tt) st []
  | JoinChat roomId =>
      result (handle origin ev st) = Normal tt ∧
      sent (handle origin ev st) = [] ∧
      (is_Some (sockets st !! origin) →
       ∃ r, name_of roomId = Some r ∧ in_room (after (handle origin ev st)) origin r)
  | _ => handle origin ev st = Run TypeError st []
  end.
Proof.
  intros Hn. destruct (is_signaling ev) eqn:Hev.
  { pose proof (signaling_throws origin ev st Hev Hn) as Hthrow.
    destruct ev; cbn in Hev; try discriminate Hev; exact Hthrow. }
  destruct ev as [ud|roomId|message| | | | | | | |]; try discriminate;
    cbn [payload_of] in Hn; cbn [handle].
  - apply on_setup_falsy. by destruct ud.
  - split_and!.
    + by destruct roomId.
    + by destruct roomId.
    + intros Hlive. destruct (name_of_nullish roomId Hn) as [r Hr].
      exists r. split; [done |]. rewrite after_on_join_chat. by apply socket_join_joins.
  - unfold on_new_message. rewrite (nullish_get message "chat" Hn). reflexivity.
Qed.

Lemma missing_payload_witness :
  handle "a1" (CallUser VUndef) four_sessions = Run TypeError four_sessions [] ∧
  handle "a1" (NewMessage VNull) four_sessions = Run TypeError four_sessions [] ∧
  handle "a1" (Setup VUndef) four_sessions = Run (Normal tt) four_sessions [].
Proof.
  split_and!.
  - exact (missing_payload four_sessions "a1" (CallUser VUndef) eq_refl).
  - exact (missing_payload four_sessions "a1" (NewMessage VNull) eq_refl).
  - exact (missing_payload four_sessions "a1" (Setup VUndef) eq_refl).
Defined.

(** X2 — [chat.users] that is not an array.  When [chat.users] is
    present and not empty-like but is not an array (a string, a number,
    an object), the handler throws at [forEach]: nothing is sent and the
    registry is unchanged. *)
Theorem users_not_an_array (st : server) (origin : string) (message chat : value) :
  get message "chat" = Normal chat →
  truthy (opt_get chat "users") = true →
  (∀ users, opt_get chat "users" ≠ VArr users) →
  handle origin (NewMessage message) st = Run TypeError st [].
Proof.
  intros Hchat Ht Hno. cbn [handle]. unfold on_new_message.
  rewrite Hchat, bind_eval_Normal, Ht. cbn [negb].
  rewrite (truthy_opt_get _ _ Ht), bind_eval_Normal.
  destruct (opt_get chat "users") as [| | | | |xs|] eqn:Hu; try reflexivity.
  by destruct (Hno xs).
Qed.

Lemma users_not_an_array_witness :
  handle "a1"
    (NewMessage (VObj [("chat", VObj [("users", VStr "uB")]); ("sender", user "uA")]))
    four_sessions
  = Run TypeError four_sessions [].
Proof.
  apply (users_not_an_array four_sessions "a1"
           (VObj [("chat", VObj [("users", VStr "uB")]); ("sender", user "uA")])
           (VObj [("users", VStr "uB")]));
    [reflexivity | reflexivity | discriminate].
Defined.

(** X3 — An envelope without a sender.  [message.sender] is read inside
    the loop only: with an empty [chat.users] the handler completes
    normally and sends nothing; with any entry at all it throws on the
    first one, and nothing is sent either. *)
Theorem missing_sender (st : server) (origin : string)
    (message chat : value) (users : list value) :
  get message "chat" = Normal chat →
  get chat "users" = Normal (VArr users) →
  nullish (opt_get message "sender") = true →
  handle origin (NewMessage message) st =
    Run (match users with [] => Normal tt | _ :: _ => TypeError end) st [].
Proof.
  intros Hchat Husers Hsender. cbn [handle]. unfold on_new_message.
  rewrite Hchat, bind_eval_Normal, (get_Normal_opt_get _ _ _ Husers), Husers.
  cbn [truthy negb]. rewrite bind_eval_Normal. cbn [value_for_each].
  destruct users as [|u users]; [reflexivity |].
  cbn [for_each]. run_handler.
  destruct (get u "_id") as [uid|]; cbn [result after sent]; [| reflexivity].
  rewrite (get_non_nullish message "sender" (get_Normal_non_nullish _ _ _ Hchat)).
  cbn [result after sent]. by rewrite (nullish_get _ "_id" Hsender).
Qed.

Lemma missing_sender_witness :
  handle "a1" (NewMessage (VObj [("chat", VObj [("users", VArr [user "uB"])])]))
    four_sessions
  = Run TypeError four_sessions [].
Proof.
  apply (missing_sender four_sessions "a1"
           (VObj [("chat", VObj [("users", VArr [user "uB"])])])
           (VObj [("users", VArr [user "uB"])]) [user "uB"]); reflexivity.
Defined.

(** X4 — The fan-out stops at the first bad entry.  When an entry of
    [chat.users] is [null] (or [undefined]) and the entries before it
    are records, the users before it are served exactly as in a
    well-formed envelope, then the handler throws: the entries after it
    are never looked at. *)
Theorem fan_out_stops_at_bad_entry (st : server) (origin : string)
    (message sender_id bad : value) (before after_it : list value) :
  is_envelope message sender_id (before ++ bad :: after_it) →
  Forall (λ u, nullish u = false) before →
  nullish bad = true →
  handle origin (NewMessage message) st =
    Run TypeError st (fan_out st message sender_id before).
Proof.
  intros (chat & sender & Hchat & Husers & Hsender & Hid) Hbefore Hbad.
  cbn [handle]. unfold on_new_message.
  rewrite Hchat, bind_eval_Normal, (get_Normal_opt_get _ _ _ Husers), Husers.
  cbn [truthy negb]. rewrite bind_eval_Normal. cbn [value_for_each].
  rewrite for_each_app.
  rewrite (bind_run _ _ st tt st (fan_out st message sender_id before));
    [| by apply for_each_fan_out with sender].
  cbn [for_each]. run_handler. rewrite (nullish_get bad "_id" Hbad).
  cbn [result after sent]. by rewrite app_nil_r.
Qed.

Lemma fan_out_stops_at_bad_entry_witness :
  handle "a1"
    (NewMessage (VObj [("chat", VObj [("users", VArr [user "uB"; VNull; user "uC"])]);
                       ("sender", user "uA")]))
    four_sessions
  = Run TypeError four_sessions
        [Delivery "b1" "message received"
           [VObj [("chat", VObj [("users", VArr [user "uB"; VNull; user "uC"])]);
                  ("sender", user "uA")]]] ∧
  result (handle "a1"
            (NewMessage (VObj [("chat", VObj [("users", VArr [VObj [("_id", VArr [])]; VNull])]);
                               ("sender", user "uA")]))
            four_sessions) = TypeError ∧
  Forall (λ s, count_to s
                 (sent (handle "a1"
                          (NewMessage (VObj [("chat", VObj [("users",
                                                VArr [VObj [("_id", VArr [])]; VNull])]);
                                             ("sender", user "uA")]))
                          four_sessions)) = 1)
         ["a1"; "a2"; "b1"; "c1"].
Proof.
  assert (∀ users, is_envelope (VObj [("chat", VObj [("users", VArr users)]);
                                      ("sender", user "uA")]) (VStr "uA") users) as Henv.
  { intros users. do 2 eexists. by split_and!. }
  pose proof (fan_out_stops_at_bad_entry four_sessions "a1" _ (VStr "uA") VNull
                [user "uB"] [user "uC"] (Henv _) ltac:(by repeat constructor) eq_refl) as H1.
  pose proof (fan_out_stops_at_bad_entry four_sessions "a1" _ (VStr "uA") VNull
                [VObj [("_id", VArr [])]] [] (Henv _) ltac:(by repeat constructor) eq_refl)
    as H2.
  cbn [app] in H1, H2. rewrite H1, H2.
  split_and!; [by vm_compute | done |].
  cbn [sent]. repeat (apply Forall_cons; split; [by vm_compute |]). constructor.
Defined.

Section Within.

Implicit Types (st : server) (Q : server → delivery → Prop).

Lemma within_ret {A} Q (a : A) : relays_within Q (mret a : handler A).
Proof. intros st. split; [done |]. by intros d Hd%elem_of_nil. Qed.

Lemma within_throw {A} Q : relays_within Q (throw : handler A).
Proof. intros st. split; [done |]. by intros d Hd%elem_of_nil. Qed.

Lemma within_eval {A} Q (c : completion A) : relays_within Q (eval c).
Proof. destruct c; [apply within_ret | apply within_throw]. Qed.

Lemma within_bind {A B} Q (m : handler A) (k : A → handler B) :
  relays_within Q m → (∀ a, relays_within Q (k a)) → relays_within Q (m ≫= k).
Proof.
  intros Hm Hk st. run_handler. destruct (Hm st) as [Hst Hout].
  destruct (m st) as [[a|] st' out]; cbn [result after sent] in *; subst st'.
  - destruct (Hk a st) as [Hst' Hout']. split; [done |].
    intros d [Hd | Hd]%elem_of_app; auto.
  - by split.
Qed.

Lemma within_for_each {A} Q (f : A → handler unit) (xs : list A) :
  (∀ x, relays_within Q (f x)) → relays_within Q (for_each f xs).
Proof.
  intros Hf. induction xs as [|x xs IH]; [apply within_ret |].
  cbn [for_each]. apply within_bind; [apply Hf | by intros _].
Qed.

Lemma within_io_to_emit v ev payload :
  relays_within (λ st d, is_Some (sockets st !! recipient d) ∧
                         event d = ev ∧ args d = payload)
                (io_to_emit v ev payload).
Proof.
  intros st. split; [done |]. cbn [io_to_emit sent].
  intros d (s & -> & Hs)%list_elem_of_fmap. cbn. split; [| done].
  by apply targets_live with v.
Qed.

Lemma within_on_new_message message :
  relays_within (λ st d, is_Some (sockets st !! recipient d) ∧
                         event d = "message received" ∧ args d = [message])
                (on_new_message message).
Proof.
  unfold on_new_message. apply within_bind; [apply within_eval |]. intros chat.
  destruct (negb _); [apply within_ret |].
  apply within_bind; [apply within_eval |]. intros users.
  destruct users; try apply within_throw. cbn [value_for_each].
  apply within_for_each. intros u.
  repeat (apply within_bind; [apply within_eval | intros ?]).
  destruct (strict_eq _ _); [apply within_ret | apply within_io_to_emit].
Qed.

Lemma count_to_none s (out : list delivery) :
  Forall (λ d, recipient d ≠ s) out → count_to s out = 0.
Proof.
  intros Hall. unfold count_to. rewrite filter_none; [done |].
  intros d Hd. by apply (proj1 (Forall_forall _ _) Hall).
Qed.

Lemma length_filter_ne {A} `{EqDecision A} (x : A) (l : list A) :
  NoDup l → x ∈ l → length (filter (λ y, y ≠ x) l) + 1 = length l.
Proof.
  induction 1 as [|y l Hy Hnd IH]; [by intros ?%elem_of_nil |].
  rewrite filter_cons. intros [<- | Hin]%elem_of_cons.
  - rewrite decide_False by (by intros ?). cbn [length].
    assert (filter (λ y, y ≠ x) l = l) as ->; [| lia].
    clear IH Hnd. induction l as [|z l IH]; [done |].
    rewrite filter_cons. apply not_elem_of_cons in Hy as [Hz Hl].
    rewrite decide_True by done. f_equal. by apply IH.
  - rewrite decide_True by (intros ->; done). cbn [length]. specialize (IH Hin). lia.
Qed.

End Within.

(** X5 — A handler touches nobody's rooms but the sender's.  Whatever
    the event and however its handler completes, the room list of every
    session other than the one that sent the event is what it was; and
    unless the event is [setup] or [join chat], the whole registry is
    what it was. *)
Theorem handlers_touch_only_the_sender (st : server) (origin : string) (ev : inbound) :
  (∀ s, s ≠ origin →
        sockets (after (handle origin ev st)) !! s = sockets st !! s) ∧
  match ev with
  | Setup _ | JoinChat _ => True
  | _ => after (handle origin ev st) = st
  end.
Proof.
  split.
  - intros s Hs. destruct (handle_sockets origin ev st) as [-> | [r ->]]; [done |].
    by rewrite lookup_alter_ne.
  - destruct ev; try exact I; try (by apply keeps_signaling).
    apply keeps_on_new_message.
Qed.

Lemma sent_is_live_and_named (st : server) (origin : string) (ev : inbound) d :
  is_Some (sockets st !! origin) →
  d ∈ sent (handle origin ev st) →
  is_Some (sockets st !! recipient d) ∧ outbound ev = Some (event d).
Proof.
  intros Hlive Hd.
  destruct (is_signaling ev) eqn:Hev.
  - destruct (nullish (payload_of ev)) eqn:Hn.
    + rewrite signaling_throws in Hd by done. by apply elem_of_nil in Hd.
    + rewrite signaling_run in Hd by done. cbn [sent] in Hd.
      apply list_elem_of_fmap in Hd as (s & -> & Hs). cbn [recipient event].
      split; [by eapply targets_live | by destruct ev].
  - destruct ev as [ud|roomId|message| | | | | | | |]; try discriminate;
      cbn [handle outbound] in *.
    + destruct (truthy (opt_get ud "_id")) eqn:Ht.
      * rewrite on_setup_truthy in Hd by done.
        destruct (_ && _); cbn [sent] in Hd; [| by apply elem_of_nil in Hd].
        by apply list_elem_of_singleton in Hd as ->.
      * rewrite on_setup_falsy in Hd by done. by apply elem_of_nil in Hd.
    + unfold on_join_chat in Hd. destruct (socket_join_run origin roomId st) as [Hr Hs].
      rewrite (bind_run _ _ st tt (after (socket_join origin roomId st)) []) in Hd;
        [| by rewrite <- Hr, <- Hs, run_eta].
      unfold console_log_template in Hd.
      destruct (forallb printable [roomId]); by apply elem_of_nil in Hd.
    + destruct (within_on_new_message message st) as [_ Hout].
      destruct (Hout d Hd) as (Hrec & -> & _). done.
Qed.

(** X6 — Every packet goes to a live session, under the event name of
    its handler.  When a live session sends an event, each packet the
    handler hands out, also before a throw, is addressed to a session in
    the registry and carries the one outbound name that belongs to the
    inbound event: [connected] for [setup], [message received] for
    [new message], the relayed name for a signaling event; [join chat]
    hands out none.  No handler ever sends an error event. *)
Theorem packets_go_to_live_sessions (st : server) (origin : string) (ev : inbound) :
  is_Some (sockets st !! origin) →
  Forall (λ d, is_Some (sockets st !! recipient d) ∧ outbound ev = Some (event d))
         (sent (handle origin ev st)).
Proof.
  intros Hlive. apply Forall_forall. intros d Hd.
  by apply sent_is_live_and_named with origin.
Qed.

Lemma packets_go_to_live_sessions_witness :
  Forall (λ d, is_Some (sockets four_sessions !! recipient d) ∧
               outbound (NewMessage hello) = Some (event d))
         (sent (handle "a1" (NewMessage hello) four_sessions)).
Proof.
  apply (packets_go_to_live_sessions four_sessions "a1" (NewMessage hello)).
  by eexists.
Defined.

(** X7 — Nothing is sent to a session that is gone.  Once Socket.IO has
    dropped a session, no event of any remaining session makes a handler
    hand it a packet. *)
Theorem nothing_for_the_gone (st : server) (gone origin : string) (ev : inbound) :
  is_Some (sockets (disconnect gone st) !! origin) →
  count_to gone (sent (handle origin ev (disconnect gone st))) = 0.
Proof.
  intros Hlive. apply count_to_none, Forall_forall. intros d Hd Heq.
  destruct (sent_is_live_and_named _ origin ev d Hlive Hd) as [[rs Hrs] _].
  rewrite Heq in Hrs. cbn in Hrs. by rewrite lookup_delete_eq in Hrs.
Qed.

Lemma nothing_for_the_gone_witness :
  count_to "b1" (sent (handle "a1" (NewMessage hello) (disconnect "b1" four_sessions))) = 0.
Proof.
  apply (nothing_for_the_gone four_sessions "b1" "a1" (NewMessage hello)).
  by eexists.
Defined.

(** X8 — Every session keeps the room named by its own id.  In a
    registry the server can reach, a live session's room list has no
    repetition and contains its own-id room; so on [disconnecting] the
    handler skips exactly one room and makes one broadcast for each of
    the others. *)
Theorem own_room_is_kept (st : server) (sid : string) (rs : list room) :
  reachable st →
  sockets st !! sid = Some rs →
  NoDup rs ∧ RStr sid ∈ rs ∧
  length (filter (λ room, room ≠ RStr sid) rs) + 1 = length rs ∧
  sent (on_disconnecting sid st) =
    flat_map (farewell st sid) (filter (λ room, room ≠ RStr sid) rs).
Proof.
  intros Hst Hs. destruct (reachable_rooms st Hst sid rs Hs) as [Hnd Hown].
  split_and!; [done | done | by apply length_filter_ne |].
  by rewrite (on_disconnecting_run st sid rs Hs).
Qed.

Lemma own_room_is_kept_witness :
  NoDup [RStr "s1"; RStr "u1"] ∧ RStr "s1" ∈ [RStr "s1"; RStr "u1"] ∧
  length (filter (λ room, room ≠ RStr "s1") [RStr "s1"; RStr "u1"]) + 1 = 2 ∧
  sent (on_disconnecting "s1"
          (after (handle "s1" (Setup (user "u1")) (connect "s1" no_sockets)))) =
    flat_map (farewell (after (handle "s1" (Setup (user "u1")) (connect "s1" no_sockets))) "s1")
             (filter (λ room, room ≠ RStr "s1") [RStr "s1"; RStr "u1"]).
Proof.
  apply (own_room_is_kept
           (after (handle "s1" (Setup (user "u1")) (connect "s1" no_sockets))) "s1").
  - apply reach_event; [| by eexists]. apply reach_connect; [apply reach_start | done].
  - by vm_compute.
Defined.

(** X9 — [join chat] joins and is silent.  The handler never sends a
    packet, to the sender or to anyone.  When the room id is a string, a
    number or another primitive and the session is live, the handler
    completes normally and the session is in that room afterwards; a
    second [join chat] for the same room changes nothing. *)
Theorem join_chat_is_silent (st : server) (sid : string) (roomId : value) (r : room) :
  name_of roomId = Some r →
  is_Some (sockets st !! sid) →
  sent (handle sid (JoinChat roomId) st) = [] ∧
  result (handle sid (JoinChat roomId) st) = Normal tt ∧
  in_room (after (handle sid (JoinChat roomId) st)) sid r ∧
  after (handle sid (JoinChat roomId) (after (handle sid (JoinChat roomId) st)))
    = after (handle sid (JoinChat roomId) st).
Proof.
  intros Hr Hlive. cbn [handle].
  assert (printable roomId = true) as Hp by (by destruct roomId).
  assert (∀ st', on_join_chat sid roomId st' =
                 Run (Normal tt) (after (socket_join sid roomId st')) []) as Hrun.
  { intros st'. unfold on_join_chat. destruct (socket_join_run sid roomId st') as [Hres Hs].
    rewrite (bind_run _ _ st' tt (after (socket_join sid roomId st')) []);
      [| by rewrite <- Hres, <- Hs, run_eta].
    unfold console_log_template. cbn [forallb]. by rewrite Hp. }
  rewrite !Hrun. cbn [sent result after]. split_and!; [done | done | |].
  - by apply socket_join_joins.
  - rewrite !(socket_join_primitive sid roomId r _ Hr).
    cbn [after sockets next_ref arrays]. f_equal.
    apply map_eq. intros s. destruct (decide (sid = s)) as [-> | Hne].
    + rewrite !lookup_alter_eq. destruct (sockets st !! s) as [rs|]; [| done].
      cbn. f_equal. unfold add_room at 1.
      rewrite decide_True; [done |]. apply elem_of_add_room. by left.
    + by rewrite !lookup_alter_ne.
Qed.

Lemma join_chat_is_silent_witness :
  sent (handle "a1" (JoinChat (VStr "chat1")) four_sessions) = [] ∧
  result (handle "a1" (JoinChat (VStr "chat1")) four_sessions) = Normal tt ∧
  in_room (after (handle "a1" (JoinChat (VStr "chat1")) four_sessions)) "a1" (RStr "chat1") ∧
  after (handle "a1" (JoinChat (VStr "chat1"))
           (after (handle "a1" (JoinChat (VStr "chat1")) four_sessions)))
    = after (handle "a1" (JoinChat (VStr "chat1")) four_sessions).
Proof.
  apply (join_chat_is_silent four_sessions "a1" (VStr "chat1") (RStr "chat1"));
    [reflexivity | by eexists].
Defined.

(** * The client and the relay together *)

Section ClientFacts.

Import Client.

Lemma truthy_non_nullish v : truthy v = true → nullish v = false.
Proof. by destruct v. Qed.

Lemma step_consistent s e : modal_consistent s → modal_consistent (step s e).
Proof.
  unfold modal_consistent. intros Hs.
  destruct e as [activeChat socket user type|payload|payload| |]; unfold step.
  - unfold initiateCall.
    destruct (negb (truthy activeChat) || negb socket); [exact Hs |].
    destruct (get activeChat "users") as [users|]; [| exact Hs].
    destruct (value_find users (differs_from user)) as [other|]; [| exact Hs].
    destruct (truthy other) eqn:Ht; cbn [negb]; [| exact Hs].
    assert (nullish other = false) as Hn by by apply truthy_non_nullish.
    destruct (get other "_id"), (get user "_id"), (get user "name");
      cbn [state_after showCallModal caller callee]; split; auto.
  - unfold handleIncomingCall.
    destruct (get payload "from"), (get payload "name"), (get payload "callType");
      cbn [state_after showCallModal caller callee nullish]; try exact Hs; split; auto.
  - unfold handleCallAccepted. destruct (get payload "from"); exact Hs.
  - cbn. split; [discriminate | intros [? | ?]; discriminate].
  - cbn. split; [discriminate | intros [? | ?]; discriminate].
Qed.

Lemma array_find_some p xs x :
  array_find p xs = Normal x → x = VUndef ∨ (x ∈ xs ∧ p x = Normal true).
Proof.
  induction xs as [|y xs IH]; cbn; [intros [= <-]; by left |].
  destruct (p y) as [[]|] eqn:Hp; [| | done].
  - intros [= <-]. right. split; [left | done].
  - intros [-> | [Hin Hx]]%IH; [by left | right; split; [by right | done]].
Qed.

End ClientFacts.

(** X10 — A ring reaches every device of the callee.  In a chat whose
    first user other than me is B, [initiateCall] records B as callee,
    raises the modal and emits one [call-user] addressed to B with my id
    and name.  The relay hands that to each session bound to B exactly
    once, as [incoming-call]; and there [handleIncomingCall] records me
    (id and name) as the caller, clears the callee, raises the modal and
    takes the call type sent, or [video] when none was. *)
Theorem ring_reaches_the_callee (st : server) (sa : string)
    (activeChat me type other : value) (users : list value) (A B : string)
    (mine theirs : Client.call_state) :
  truthy activeChat = true →
  get activeChat "users" = Normal (VArr users) →
  Client.array_find (Client.differs_from me) users = Normal other →
  truthy other = true →
  get other "_id" = Normal (VStr B) →
  get me "_id" = Normal (VStr A) →
  ∃ ring,
    ring = VObj [("to", VStr B); ("from", VStr A); ("name", opt_get me "name");
                 ("callType", type)] ∧
    Client.initiateCall activeChat true me type mine =
      Client.Outcome (Normal tt)
        (Client.CallState true (Client.caller mine) other false type)
        [("call-user", ring)] ∧
    (∀ sb, bound st sb B → count_to sb (sent (handle sa (CallUser ring) st)) = 1) ∧
    Forall (λ d, bound st (recipient d) B ∧ event d = "incoming-call" ∧
                 ∃ arg, args d = [arg] ∧
                   Client.handleIncomingCall arg theirs =
                     Client.Outcome (Normal tt)
                       (Client.CallState true
                          (VObj [("_id", VStr A); ("name", opt_get me "name")])
                          VNull false
                          (if truthy type then type else VStr "video"))
                       [])
           (sent (handle sa (CallUser ring) st)).
Proof.
  intros Hchat Husers Hfind Hother HB HA. eexists. split; [reflexivity |].
  split_and!.
  - unfold Client.initiateCall. rewrite Hchat, Husers. cbn [negb orb Client.value_find].
    rewrite Hfind, Hother, HB, HA. cbn [negb].
    by rewrite (get_non_nullish me "name" (get_Normal_non_nullish _ _ _ HA)).
  - intros sb Hsb%bound_members.
    rewrite (signaling_count sa (CallUser _) st (VStr B) (RStr B)) by done.
    by rewrite decide_True.
  - rewrite (signaling_run sa (CallUser _)) by done.
    cbn [sent payload_of forwarded fst snd opt_get get own_property String.eqb Ascii.eqb Bool.eqb].
    apply Forall_fmap, Forall_forall. intros s Hs. cbn [recipient event args].
    split_and!; [by apply targets_bound | done |]. eexists. split; [reflexivity |].
    reflexivity.
Qed.

Lemma ring_reaches_the_callee_witness :
  count_to "b1"
    (sent (handle "a1"
             (CallUser (VObj [("to", VStr "uB"); ("from", VStr "uA");
                              ("name", VStr "Ann"); ("callType", VStr "audio")]))
             four_sessions)) = 1.
Proof.
  destruct (ring_reaches_the_callee four_sessions "a1"
              (VObj [("_id", VStr "chat1");
                     ("users", VArr [VObj [("_id", VStr "uA"); ("name", VStr "Ann")];
                                     VObj [("_id", VStr "uB"); ("name", VStr "Bob")]])])
              (VObj [("_id", VStr "uA"); ("name", VStr "Ann")])
              (VStr "audio")
              (VObj [("_id", VStr "uB"); ("name", VStr "Bob")])
              [VObj [("_id", VStr "uA"); ("name", VStr "Ann")];
               VObj [("_id", VStr "uB"); ("name", VStr "Bob")]]
              "uA" "uB" Client.initial Client.initial
              eq_refl eq_refl eq_refl eq_refl eq_refl eq_refl)
    as (ring & -> & _ & Hcount & _).
  apply Hcount. by apply four_sessions_uB.
Defined.

(** X11 — Accepting goes back to every device of the caller.  On the
    callee's side, after an [incoming-call] from A has been handled,
    [acceptCall] emits one [call-accepted] addressed to A with the
    callee's id and clears [incoming].  The relay hands it to each
    session bound to A exactly once, carrying the callee's id only; and
    there [handleCallAccepted] sets [callAccepted] and changes nothing
    else. *)
Theorem accept_returns_to_the_caller (st : server) (sb : string)
    (incoming_call me : value) (A B : string) (theirs mine : Client.call_state) :
  get incoming_call "from" = Normal (VStr A) →
  get me "_id" = Normal (VStr B) →
  ∃ accept,
    accept = VObj [("to", VStr A); ("from", VStr B)] ∧
    Client.acceptCall true
      (Client.caller (Client.state_after (Client.handleIncomingCall incoming_call theirs)))
      me true
    = Client.Outcome (Normal tt) false [("call-accepted", accept)] ∧
    (∀ sa, bound st sa A →
           count_to sa (sent (handle sb (CallAccepted accept) st)) = 1) ∧
    Forall (λ d, bound st (recipient d) A ∧ event d = "call-accepted" ∧
                 args d = [VObj [("from", VStr B)]] ∧
                 Client.handleCallAccepted (VObj [("from", VStr B)]) mine =
                   Client.Outcome (Normal tt)
                     (Client.CallState (Client.showCallModal mine) (Client.caller mine)
                        (Client.callee mine) true (Client.callType mine))
                     [])
           (sent (handle sb (CallAccepted accept) st)).
Proof.
  intros Hfrom HB. eexists. split; [reflexivity |].
  pose proof (get_Normal_non_nullish _ _ _ Hfrom) as Hn.
  split_and!.
  - unfold Client.handleIncomingCall.
    rewrite Hfrom, (get_non_nullish _ "name" Hn), (get_non_nullish _ "callType" Hn).
    cbn [Client.state_after Client.caller]. unfold Client.acceptCall. cbn [negb].
    by rewrite HB.
  - intros sa Hsa%bound_members.
    rewrite (signaling_count sb (CallAccepted _) st (VStr A) (RStr A)) by done.
    by rewrite decide_True.
  - rewrite (signaling_run sb (CallAccepted _)) by done.
    cbn [sent payload_of forwarded fst snd].
    apply Forall_fmap, Forall_forall. intros s Hs. cbn [recipient event args].
    split_and!; [by apply targets_bound | done | done | done].
Qed.

Lemma accept_returns_to_the_caller_witness :
  count_to "a2"
    (sent (handle "b1" (CallAccepted (VObj [("to", VStr "uA"); ("from", VStr "uB")]))
             four_sessions)) = 1.
Proof.
  destruct (accept_returns_to_the_caller four_sessions "b1"
              (VObj [("from", VStr "uA"); ("name", VStr "Ann"); ("callType", VStr "audio")])
              (VObj [("_id", VStr "uB"); ("name", VStr "Bob")])
              "uA" "uB" Client.initial Client.initial eq_refl eq_refl)
    as (accept & -> & _ & Hcount & _).
  apply Hcount. apply four_sessions_uA. by right.
Defined.

(** X12 — The prepare-call handshake comes back to the caller.  A sends
    [prepare-call{to: B, from: A}].  Each session bound to B gets it
    once; its listener answers [ready-for-offer{to: A}], without a
    [from]; and the relay hands that answer to each session bound to A
    exactly once, with [from] undefined. *)
Theorem handshake_returns_to_the_caller (st : server) (sa : string)
    (data : value) (A B : string) :
  get data "to" = Normal (VStr B) →
  get data "from" = Normal (VStr A) →
  (∀ sb, bound st sb B → count_to sb (sent (handle sa (PrepareCall data) st)) = 1) ∧
  Forall (λ d, bound st (recipient d) B ∧ event d = "prepare-call" ∧
               ∃ arg, args d = [arg] ∧
                 Client.on_prepare_call arg =
                   Client.Outcome (Normal tt) tt
                     [("ready-for-offer", VObj [("to", VStr A)])] ∧
                 (∀ sa', bound st sa' A →
                    count_to sa'
                      (sent (handle (recipient d)
                               (ReadyForOffer (VObj [("to", VStr A)])) st)) = 1) ∧
                 Forall (λ d', bound st (recipient d') A ∧
                               event d' = "ready-for-offer" ∧
                               args d' = [VObj [("from", VUndef)]])
                        (sent (handle (recipient d)
                                 (ReadyForOffer (VObj [("to", VStr A)])) st)))
         (sent (handle sa (PrepareCall data) st)).
Proof.
  intros Hto Hfrom. pose proof (get_Normal_non_nullish _ _ _ Hto) as Hn.
  split.
  - intros sb Hsb%bound_members.
    rewrite (signaling_count sa (PrepareCall data) st (VStr B) (RStr B)) by done.
    by rewrite decide_True.
  - rewrite (signaling_run sa (PrepareCall data)) by done.
    cbn [sent payload_of forwarded fst snd].
    rewrite (get_Normal_opt_get _ _ _ Hto), (get_Normal_opt_get _ _ _ Hfrom).
    apply Forall_fmap, Forall_forall. intros s Hs. cbn [recipient event args].
    split_and!; [by apply targets_bound | done |].
    eexists. split; [reflexivity |]. split_and!; [done | |].
    + intros sa' Hsa'%bound_members.
      rewrite (signaling_count s (ReadyForOffer _) st (VStr A) (RStr A)) by done.
      by rewrite decide_True.
    + rewrite (signaling_run s (ReadyForOffer _)) by done.
      cbn [sent payload_of forwarded fst snd].
      apply Forall_fmap, Forall_forall. intros s' Hs'. cbn [recipient event args].
      split_and!; [by apply targets_bound | done | done].
Qed.

Lemma handshake_returns_to_the_caller_witness :
  count_to "b1"
    (sent (handle "a1" (PrepareCall (VObj [("to", VStr "uB"); ("from", VStr "uA")]))
             four_sessions)) = 1.
Proof.
  destruct (handshake_returns_to_the_caller four_sessions "a1"
              (VObj [("to", VStr "uB"); ("from", VStr "uA")]) "uA" "uB"
              eq_refl eq_refl) as [Hcount _].
  apply Hcount. by apply four_sessions_uB.
Defined.

(** X13 — The call modal is up exactly when a peer is recorded.  From
    the initial state, after any sequence of calls started, rings
    received, acceptances, hang-ups and closings, with whatever
    payloads, [showCallModal] is true if and only if [caller] or
    [callee] is set. *)
Theorem modal_shows_a_peer (events : list Client.ui_event) :
  Client.modal_consistent (foldl Client.step Client.initial events).
Proof.
  assert (Client.modal_consistent Client.initial) as Hinit.
  { split; [done | by intros [? | ?]]. }
  revert Hinit. generalize Client.initial.
  induction events as [|e events IH]; intros s Hs; [done |].
  cbn [foldl]. apply IH. by apply step_consistent.
Qed.

(** X14 — A chat title is never empty.  Whenever [chatTitle] returns,
    what it returns is truthy: a placeholder, the group's name or the
    other user's name, never [undefined] or the empty string.  It
    returns whenever [chat.users] is missing or is an array of
    records. *)
Theorem chat_title_is_never_empty (chat me : value) :
  (∀ title, Client.chatTitle chat me = Normal title → truthy title = true) ∧
  (nullish (opt_get chat "users") = true →
     ∃ title, Client.chatTitle chat me = Normal title) ∧
  (∀ users, opt_get chat "users" = VArr users →
            Forall (λ u, nullish u = false) users →
            ∃ title, Client.chatTitle chat me = Normal title).
Proof.
  unfold Client.chatTitle. split_and!.
  - intros title. destruct (truthy chat); cbn [negb]; [| by intros [= <-]].
    destruct (truthy (opt_get chat "isGroupChat")); cbn [andb].
    + destruct (truthy (opt_get chat "chatName")) eqn:Hn; [by intros [= <-] |].
      destruct (if nullish _ then _ else _) as [other|]; [| done].
      intros [= <-]. by destruct (truthy (opt_get other "name")) eqn:Ho.
    + destruct (if nullish _ then _ else _) as [other|]; [| done].
      intros [= <-]. by destruct (truthy (opt_get other "name")) eqn:Ho.
  - intros Hn. rewrite Hn.
    destruct (negb (truthy chat)); [by eexists |].
    destruct (_ && _); by eexists.
  - intros users Hu Hall. rewrite Hu. cbn [nullish Client.value_find].
    destruct (negb (truthy chat)); [by eexists |].
    destruct (_ && _); [by eexists |].
    assert (∃ other, Client.array_find (Client.differs_from_opt me) users = Normal other)
      as [other ->]; [| by eexists].
    clear Hu. induction Hall as [|u users Hnu _ IH]; cbn; [by eexists |].
    unfold Client.differs_from_opt at 1. rewrite (get_non_nullish u "_id" Hnu).
    destruct (negb _); [by eexists | exact IH].
Qed.

Lemma chat_title_is_never_empty_witness :
  Client.chatTitle (VObj [("users", VArr [VObj [("_id", VStr "uA")]])])
                   (VObj [("_id", VStr "uA")])
    = Normal (VStr "Unknown User") ∧
  truthy (VStr "Unknown User") = true.
Proof.
  split; [reflexivity |].
  apply (proj1 (chat_title_is_never_empty
                  (VObj [("users", VArr [VObj [("_id", VStr "uA")]])])
                  (VObj [("_id", VStr "uA")]))).
  reflexivity.
Defined.

(** X15 — In a one-to-one chat the title is the other user's name.  For
    a chat that is not a group chat and lists me and one other user, in
    either order, [chatTitle] returns the other user's name, or
    [Unknown User] when that name is missing or empty. *)
Theorem chat_title_names_the_other (chat me uMe uOther : value)
    (users : list value) (A B : string) :
  truthy chat = true →
  truthy (opt_get chat "isGroupChat") = false →
  opt_get chat "users" = VArr users →
  users = [uMe; uOther] ∨ users = [uOther; uMe] →
  get uMe "_id" = Normal (VStr A) →
  get uOther "_id" = Normal (VStr B) →
  opt_get me "_id" = VStr A →
  A ≠ B →
  Client.chatTitle chat me =
    Normal (if truthy (opt_get uOther "name") then opt_get uOther "name"
            else VStr "Unknown User").
Proof.
  intros Hchat Hgroup Husers Horder HuMe HuOther Hme HAB.
  unfold Client.chatTitle. rewrite Hchat, Hgroup, Husers.
  cbn [negb andb nullish Client.value_find].
  assert (Client.differs_from_opt me uMe = Normal false) as HdMe.
  { unfold Client.differs_from_opt. rewrite HuMe, Hme, strict_eq_VStr.
    by rewrite bool_decide_eq_true_2. }
  assert (Client.differs_from_opt me uOther = Normal true) as HdOther.
  { unfold Client.differs_from_opt. rewrite HuOther, Hme, strict_eq_VStr.
    by rewrite bool_decide_eq_false_2 by congruence. }
  destruct Horder as [-> | ->]; cbn [Client.array_find];
    by rewrite ?HdMe, ?HdOther.
Qed.

Lemma chat_title_names_the_other_witness :
  Client.chatTitle
    (VObj [("isGroupChat", VBool false);
           ("users", VArr [VObj [("_id", VStr "uA"); ("name", VStr "Ann")];
                           VObj [("_id", VStr "uB"); ("name", VStr "Bob")]])])
    (VObj [("_id", VStr "uA"); ("name", VStr "Ann")])
  = Normal (VStr "Bob").
Proof.
  apply (chat_title_names_the_other _ _
           (VObj [("_id", VStr "uA"); ("name", VStr "Ann")])
           (VObj [("_id", VStr "uB"); ("name", VStr "Bob")])
           [VObj [("_id", VStr "uA"); ("name", VStr "Ann")];
            VObj [("_id", VStr "uB"); ("name", VStr "Bob")]] "uA" "uB");
    try reflexivity; [by left | discriminate].
Defined.

Section Durations.

Import Client.

Local Open Scope N_scope.

Lemma string_app_nil (t : string) : "" +:+ t = t.
Proof. reflexivity. Qed.

Lemma string_app_cons c (s t : string) : String c s +:+ t = String c (s +:+ t).
Proof. reflexivity. Qed.

Lemma string_length_app (s t : string) :
  String.length (s +:+ t) = (String.length s + String.length t)%nat.
Proof.
  induction s as [|c s IH]; [by rewrite string_app_nil |].
  rewrite string_app_cons. cbn [String.length]. by rewrite IH.
Qed.

(** Two concatenations with tails of the same length agree part by part. *)
Lemma string_app_inj_tail (s1 s2 t1 t2 : string) :
  String.length t1 = String.length t2 →
  s1 +:+ t1 = s2 +:+ t2 → s1 = s2 ∧ t1 = t2.
Proof.
  intros Hlen. revert s2. induction s1 as [|c s1 IH]; intros [|d s2];
    rewrite ?string_app_nil, ?string_app_cons.
  - done.
  - intros Heq. rewrite Heq in Hlen. cbn [String.length] in Hlen.
    rewrite string_length_app in Hlen. lia.
  - intros Heq. rewrite <- Heq in Hlen. cbn [String.length] in Hlen.
    rewrite string_length_app in Hlen. lia.
  - intros [= -> [-> ->]%IH]. done.
Qed.

Lemma length_pretty_N_go x s :
  (String.length s ≤ String.length (pretty_N_go x s))%nat.
Proof.
  revert s. induction (N.lt_wf_0 x) as [x _ IH]; intros s.
  assert (x = 0 ∨ 0 < x) as [-> | Hx] by lia; [by rewrite pretty_N_go_0 |].
  rewrite pretty_N_go_step by done.
  etrans; [| by eapply IH, N.div_lt]. cbn. lia.
Qed.

Lemma pretty_one_digit (x : N) : x < 10 → pretty x = String (pretty_N_char x) "".
Proof.
  intros Hx. unfold pretty, pretty_N. destruct (decide (x = 0)) as [-> | Hne]; [done |].
  rewrite pretty_N_go_step by lia.
  rewrite (N.div_small x 10), (N.mod_small x 10) by done.
  by rewrite pretty_N_go_0.
Qed.

Lemma pretty_two_digits (x : N) :
  10 ≤ x < 100 →
  pretty x = String (pretty_N_char (x `div` 10)) (String (pretty_N_char (x `mod` 10)) "").
Proof.
  intros Hx. unfold pretty, pretty_N. rewrite decide_False by lia.
  assert (0 < x `div` 10 < 10) as Hq.
  { split; [apply N.div_str_pos; lia | apply N.Div0.div_lt_upper_bound; lia]. }
  rewrite pretty_N_go_step by lia.
  rewrite pretty_N_go_step by lia.
  rewrite (N.div_small (x `div` 10) 10), (N.mod_small (x `div` 10) 10) by lia.
  by rewrite pretty_N_go_0.
Qed.

Lemma padStart2_two_digits (x : N) :
  x < 100 →
  padStart2 (pretty x) =
    String (pretty_N_char (x `div` 10)) (String (pretty_N_char (x `mod` 10)) "").
Proof.
  intros Hx. destruct (decide (x < 10)) as [Hlt | Hge].
  - rewrite pretty_one_digit by done.
    by rewrite (N.div_small x 10), (N.mod_small x 10).
  - by rewrite pretty_two_digits by lia.
Qed.

Lemma length_pretty_three_digits (x : N) : 100 ≤ x → (3 ≤ String.length (pretty x))%nat.
Proof.
  intros Hx. unfold pretty, pretty_N. rewrite decide_False by lia.
  assert (10 ≤ x `div` 10) as Hq by (apply N.div_le_lower_bound; lia).
  assert (0 < (x `div` 10) `div` 10) as Hqq by (apply N.div_str_pos; lia).
  rewrite pretty_N_go_step by lia.
  rewrite pretty_N_go_step by lia.
  rewrite pretty_N_go_step by lia.
  etrans; [| apply length_pretty_N_go]. cbn. lia.
Qed.

Lemma padStart2_long s : (2 ≤ String.length s)%nat → padStart2 s = s.
Proof. unfold padStart2. destruct s as [|c [|d s]]; cbn; [lia | lia | done]. Qed.

Lemma padStart2_pretty_inj (x y : N) :
  padStart2 (pretty x) = padStart2 (pretty y) → x = y.
Proof.
  destruct (decide (x < 100)) as [Hx | Hx], (decide (y < 100)) as [Hy | Hy].
  - rewrite !padStart2_two_digits by done. intros [= Hq Hr].
    apply pretty_N_char_inj in Hq;
      [| apply N.Div0.div_lt_upper_bound; lia | apply N.Div0.div_lt_upper_bound; lia].
    apply pretty_N_char_inj in Hr; [| by apply N.mod_lt | by apply N.mod_lt].
    rewrite (N.div_mod x 10), (N.div_mod y 10) by done. lia.
  - rewrite padStart2_two_digits by done.
    pose proof (length_pretty_three_digits y ltac:(lia)) as Hlen.
    rewrite (padStart2_long (pretty y)) by lia.
    intros Heq. rewrite <- Heq in Hlen. cbn in Hlen. lia.
  - rewrite (padStart2_two_digits y) by done.
    pose proof (length_pretty_three_digits x ltac:(lia)) as Hlen.
    rewrite (padStart2_long (pretty x)) by lia.
    intros Heq. rewrite Heq in Hlen. cbn in Hlen. lia.
  - pose proof (length_pretty_three_digits x ltac:(lia)).
    pose proof (length_pretty_three_digits y ltac:(lia)).
    rewrite !padStart2_long by lia. apply pretty_N_inj.
Qed.

Lemma length_padStart2_two_digits (x : N) :
  x < 100 → String.length (padStart2 (pretty x)) = 2%nat.
Proof. intros Hx. by rewrite padStart2_two_digits. Qed.

Lemma digit_pretty (d : N) : d < 10 → pretty_N_char d = digit d.
Proof.
  intros Hd.
  assert (d = 0 ∨ d = 1 ∨ d = 2 ∨ d = 3 ∨ d = 4 ∨ d = 5 ∨ d = 6 ∨ d = 7 ∨ d = 8 ∨ d = 9)
    as Hcases by lia.
  repeat (destruct Hcases as [-> | Hcases]; [reflexivity |]). by subst.
Qed.

(** Two digits, padded or not, spelled out. *)
Lemma padStart2_digits (x : N) :
  x < 100 →
  padStart2 (pretty x) = String (digit (x `div` 10)) (String (digit (x `mod` 10)) "").
Proof.
  intros Hx. rewrite padStart2_two_digits by done.
  rewrite !digit_pretty; [done | by apply N.mod_lt |].
  apply N.Div0.div_lt_upper_bound. lia.
Qed.

Lemma formatDuration_Some (n : N) t :
  formatDuration n = Some t →
  n < 2 ^ 53 ∧
  t = padStart2 (pretty (n `div` 60)) +:+ ":" +:+ padStart2 (pretty (n `mod` 60)).
Proof.
  unfold formatDuration. destruct (N.ltb_spec n (2 ^ 53)) as [Hn | Hn]; [| done].
  by intros [= <-].
Qed.

End Durations.

(** X16 — Call durations print distinctly, as MM:SS.  On every whole
    number of seconds below 2^53 [formatDuration] gives a text.  Two
    different numbers of seconds never give the same text.  The text
    ends in a colon and the two decimal digits of the seconds left over
    after the whole minutes, tens first.  Under a hundred minutes what
    stands before the colon is the two decimal digits of the minutes,
    tens first, so the text has exactly five characters; from a hundred
    minutes on it is the number of minutes in decimal. *)
Theorem durations_print_distinctly :
  (∀ n : N, (n < 2 ^ 53)%N → is_Some (Client.formatDuration n)) ∧
  (∀ (a b : N) (t : string),
     Client.formatDuration a = Some t → Client.formatDuration b = Some t → a = b) ∧
  (∀ (n : N) (t : string),
     Client.formatDuration n = Some t →
     ∃ minutes,
       t = minutes +:+ ":" +:+
           String (Client.digit ((n `mod` 60) `div` 10))
             (String (Client.digit ((n `mod` 60) `mod` 10)) "") ∧
       ((n < 6000)%N →
        minutes = String (Client.digit (n `div` 600))
                    (String (Client.digit ((n `div` 60) `mod` 10)) "") ∧
        String.length t = 5) ∧
       ((6000 ≤ n)%N → minutes = pretty (n `div` 60)%N)).
Proof.
  assert (∀ n : N, (n `mod` 60 < 100)%N) as Hsec.
  { intros n. pose proof (N.mod_lt n 60). lia. }
  split_and!.
  - intros n Hn. unfold Client.formatDuration.
    destruct (N.ltb_spec n (2 ^ 53)) as [_ | Hge]; [by eexists | lia].
  - intros a b t [_ ->]%formatDuration_Some [_ Heq]%formatDuration_Some.
    apply string_app_inj_tail in Heq as [Hmin Hrest].
    + rewrite !string_app_cons, !string_app_nil in Hrest. injection Hrest as Hs.
      apply padStart2_pretty_inj in Hmin. apply padStart2_pretty_inj in Hs.
      rewrite (N.div_mod a 60), (N.div_mod b 60) by done. lia.
    + rewrite !string_length_app. by rewrite !length_padStart2_two_digits.
  - intros n t [_ ->]%formatDuration_Some.
    exists (Client.padStart2 (pretty (n `div` 60)%N)). split_and!.
    + by rewrite (padStart2_digits (n `mod` 60)) by apply Hsec.
    + intros Hn.
      assert (n `div` 60 < 100)%N as Hmin by (apply N.Div0.div_lt_upper_bound; lia).
      split.
      * rewrite (padStart2_digits (n `div` 60)) by done.
        by rewrite N.Div0.div_div.
      * rewrite !string_length_app.
        by rewrite !length_padStart2_two_digits by (done || apply Hsec).
    + intros Hn. apply padStart2_long.
      etrans; [| apply length_pretty_three_digits]; [lia |].
      apply N.div_le_lower_bound; lia.
Qed.

Lemma durations_print_distinctly_witness :
  is_Some (Client.formatDuration 75) ∧
  (Client.formatDuration 75 = Some "01:15" →
   Client.formatDuration (60 + 15) = Some "01:15" → 75%N = (60 + 15)%N) ∧
  ∃ minutes, "01:15" = minutes +:+ ":" +:+ "15" ∧
             ((75 < 6000)%N → minutes = "01" ∧ String.length "01:15" = 5).
Proof.
  destruct durations_print_distinctly as (Htotal & Hinj & Hshape).
  split_and!.
  - apply Htotal. reflexivity.
  - apply Hinj.
  - destruct (Hshape 75%N "01:15" eq_refl) as (minutes & Htext & Hshort & _).
    exists minutes. split; [exact Htext | exact Hshort].
Defined.
